(** * Shannon orchestration engine: wave scheduler, retry orchestrator,
      session progress and signal handlers

    A shallow embedding of
      - [src/phases/pre-recon.js]   (runTerminalScan, runPreReconWave1/2),
      - [src/ai/claude-executor.js] (validateAgentOutput, runClaudePrompt,
                                     runClaudePromptWithRetry),
      - [shannon.mjs]               (updateSessionProgress, the phase steps
                                     that call the orchestrator, the
                                     SIGINT/SIGTERM handlers),
    followed by the properties stated about them.

    Conventions.  JavaScript objects used as maps are [gmap string _];
    arrays are lists read with [!!] (an index out of range reads
    [undefined]); an [async] function is a function returning the way its
    promise settles; the outside world (external processes, the LLM message
    stream, the validators that inspect the workspace, the session store) is
    an explicit record of oracles.  Console output and the timing metrics
    are not part of the model. *)

From Stdlib Require Import QArith Ascii.
From stdpp Require Import base strings list gmap.

Local Open Scope string_scope.

(* ===================================================================== *)
(** * Part I: the program                                                *)
(* ===================================================================== *)

(** ** JavaScript values and helpers *)

Module Js.

(** ["\n"] *)
Definition nl : string := String (Ascii.ascii_of_nat 10) EmptyString.

(** Truthiness of a string: only [""] is falsy. *)
Definition truthy (s : string) : bool := negb (String.eqb s "").

(** [a || b] where [a] may be [undefined]/[null] or a string. *)
Definition or_else (a : option string) (b : string) : string :=
  match a with
  | Some s => if truthy s then s else b
  | None => b
  end.

(** [n || 0] for a possibly missing number. *)
Definition num_or_zero (n : option Q) : Q :=
  match n with Some q => q | None => 0%Q end.

(** [a || b] on numbers: [0] is falsy. *)
Definition num_or (a : option Q) (b : Q) : Q :=
  match a with
  | Some q => if Qeq_bool q 0 then b else q
  | None => b
  end.

Definition lower_ascii (c : Ascii.ascii) : Ascii.ascii :=
  let n := Ascii.nat_of_ascii c in
  if (65 <=? n)%nat && (n <=? 90)%nat then Ascii.ascii_of_nat (n + 32) else c.

(** [s.toLowerCase()], on the ASCII range. *)
Fixpoint toLowerCase (s : string) : string :=
  match s with
  | EmptyString => EmptyString
  | String c s' => String (lower_ascii c) (toLowerCase s')
  end.

(** [s.includes(sub)] *)
Fixpoint includes (sub s : string) : bool :=
  if String.prefix sub s then true
  else match s with
       | EmptyString => false
       | String _ s' => includes sub s'
       end.

(** [s.endsWith(suffix)] *)
Definition endsWith (suffix s : string) : bool :=
  let n := String.length s in
  let k := String.length suffix in
  (k <=? n)%nat && String.eqb (String.substring (n - k) k s) suffix.

(** [l.join(sep)] *)
Fixpoint join (sep : string) (l : list string) : string :=
  match l with
  | [] => ""
  | [x] => x
  | x :: rest => x +:+ sep +:+ join sep rest
  end.

(** An [Error] object, with the properties this program reads from it.
    A [PentestError(message, type, retryable)] has [err_type = Some type]. *)
Record Error := {
  err_message : string;
  err_name : string;               (* error.constructor.name *)
  err_type : option string;        (* PentestError category *)
  err_retryable : bool;            (* PentestError retryable flag *)
  err_stdout : option string;      (* set on a failed external process *)
  err_partialResults : option string;
  err_cost : option Q;
  err_duration : option Z
}.

(** [new Error(message)] *)
Definition mkError (msg : string) : Error :=
  {| err_message := msg; err_name := "Error"; err_type := None;
     err_retryable := false; err_stdout := None;
     err_partialResults := None; err_cost := None; err_duration := None |}.

(** [new PentestError(message, type, retryable)] *)
Definition PentestError (msg type : string) (retryable : bool) : Error :=
  {| err_message := msg; err_name := "PentestError"; err_type := Some type;
     err_retryable := retryable; err_stdout := None;
     err_partialResults := None; err_cost := None; err_duration := None |}.

(** What a [throw] carries: an error object, or [undefined] (the value of
    an unassigned [let]). *)
Inductive Thrown :=
| ThrowError (e : Error)
| ThrowUndefined.

(** How a promise settles. *)
Inductive Settled (A : Type) :=
| Fulfilled (v : A)
| Rejected (t : Thrown).
Arguments Fulfilled {A} v.
Arguments Rejected {A} t.

(** The promise returned by [Promise.all]. *)
Inductive AllOutcome (A : Type) :=
| AllFulfilled (vs : list A)
| AllRejected (t : Thrown)
| AllPending.
Arguments AllFulfilled {A} vs.
Arguments AllRejected {A} t.
Arguments AllPending {A}.

(** [Promise.all(ps)]: every input promise has a slot in the result
    array; when promise [i] fulfils, its value is stored in slot [i]; the
    first rejection rejects the whole; once every slot is filled the
    result array is delivered.  [order] lists the indices of the promises
    in the order in which they settle. *)
Fixpoint all_settle {A} (ps : list (Settled A)) (slots : list (option A))
         (order : list nat) : AllOutcome A :=
  match order with
  | [] =>
      match mapM id slots with
      | Some vs => AllFulfilled vs
      | None => AllPending
      end
  | i :: rest =>
      match ps !! i with
      | Some (Fulfilled v) => all_settle ps (<[i := Some v]> slots) rest
      | Some (Rejected t) => AllRejected t
      | None => all_settle ps slots rest
      end
  end.

Definition promise_all {A} (ps : list (Settled A)) (order : list nat)
  : AllOutcome A :=
  all_settle ps (replicate (length ps) None) order.

End Js.

Import Js.

(** The object returned by [runClaudePrompt].  Properties that a branch
    does not set are [None] ([undefined]); [apiErrorDetected] is only ever
    tested for truthiness, so [undefined] is [false]. *)
Record AttemptResult := {
  ar_result : option string;
  ar_success : bool;
  ar_duration : Z;
  ar_turns : option nat;
  ar_cost : Q;
  ar_partialCost : option Q;
  ar_apiErrorDetected : bool;
  ar_error : option string;
  ar_errorType : option string;
  ar_retryable : option bool
}.

(** ** [src/phases/pre-recon.js]: terminal scans *)

Module Tools.

(** [{ tool, output, status, duration }] *)
Record ToolScanResult := {
  tool : string;
  output : string;
  status : string;
  duration : Z
}.

(** Result of awaiting a zx command: exit code 0 with its stdout, or a
    thrown error (non-zero exit, command not found). *)
Inductive ProcResult :=
| Exit0 (stdout : string)
| ProcFails (e : Error).

(** The world a scan runs in. *)
Record World := {
  (** [new URL(target).hostname]; throws on a malformed URL. *)
  url_hostname : string -> Error + string;
  (** the external command of each tool *)
  run_tool : string -> ProcResult;
  (** [timer.stop()] of the timer of each tool *)
  timer_stop : string -> Z;
  (** [fs.pathExists(schemasDir)] *)
  schemas_dir_exists : bool;
  (** [fs.readdir(schemasDir)] *)
  schemas_readdir : Error + list string;
  (** [schemathesis run <schemaPath> ...] for each schema file *)
  run_schemathesis : string -> ProcResult
}.

Section RunTerminalScan.

(** The text that summarises an error. *)
Variable errorSummary : Error -> string.

(** Modelled from the spec: [handleToolError] of [src/error-handling.js]
    is not among the sources.  Section 4.4: "a thrown error or non-zero
    external-process exit converts to [{status: failed, output:
    errorSummary}]".  The summary text itself is left to
    [errorSummary]; a failed scan reports no duration. *)
Definition handleToolError (toolName : string) (error : Error)
  : ToolScanResult :=
  {| tool := toolName; output := errorSummary error;
     status := "failed"; duration := 0 |}.

Variable w : World.

Definition is_api_schema (f : string) : bool :=
  endsWith ".json" f || endsWith ".yml" f || endsWith ".yaml" f.

(** The body of the [for (const schemaFile of apiSchemas)] loop. *)
Definition schema_entry (schemaFile : string) : string :=
  match run_schemathesis w schemaFile with
  | Exit0 out => "Schema: " +:+ schemaFile +:+ nl +:+ out
  | ProcFails e =>
      "Schema: " +:+ schemaFile +:+ nl +:+ "Error: "
        +:+ or_else (err_stdout e) (err_message e)
  end.

(** The scans that first resolve the hostname of the target. *)
Definition scan_host (t target : string) : ToolScanResult :=
  match url_hostname w target with
  | inl e => handleToolError t e
  | inr _ =>
      match run_tool w t with
      | Exit0 out =>
          {| tool := t; output := out; status := "success";
             duration := timer_stop w t |}
      | ProcFails e => handleToolError t e
      end
  end.

(** The scans that pass the target URL as it is.  [fallback] is the
    right operand of [result.stdout || ...], where the source has one. *)
Definition scan_url (t : string) (fallback : option string)
  : ToolScanResult :=
  match run_tool w t with
  | Exit0 out =>
      {| tool := t;
         output := match fallback with
                   | Some d => or_else (Some out) d
                   | None => out
                   end;
         status := "success"; duration := timer_stop w t |}
  | ProcFails e => handleToolError t e
  end.

(** [runTerminalScan(tool, target, sourceDir)].  Every path ends in a
    [return], also the [catch]: the promise always fulfils. *)
Definition runTerminalScan (t target : string) : ToolScanResult :=
  if String.eqb t "nmap" then scan_host "nmap" target
  else if String.eqb t "subfinder" then scan_host "subfinder" target
  else if String.eqb t "whatweb" then scan_url "whatweb" None
  else if String.eqb t "naabu" then scan_host "naabu" target
  else if String.eqb t "schemathesis" then
    if schemas_dir_exists w then
      match schemas_readdir w with
      | inl e => handleToolError "schemathesis" e
      | inr schemaFiles =>
          let apiSchemas := List.filter is_api_schema schemaFiles in
          if (0 <? length apiSchemas)%nat then
            let allResults := map schema_entry apiSchemas in
            {| tool := "schemathesis";
               output := join (nl +:+ nl) allResults;
               status := "success";
               duration := timer_stop w "schemathesis" |}
          else
            {| tool := "schemathesis"; output := "No API schemas found";
               status := "skipped";
               duration := timer_stop w "schemathesis" |}
      end
    else
      {| tool := "schemathesis"; output := "Schemas directory not found";
         status := "skipped"; duration := timer_stop w "schemathesis" |}
  else if String.eqb t "httpx" then scan_url "httpx" None
  else if String.eqb t "nuclei" then scan_url "nuclei" (Some "No findings")
  else if String.eqb t "sqlmap" then scan_url "sqlmap" None
  else handleToolError t (mkError ("Unknown tool: " +:+ t)).

End RunTerminalScan.

End Tools.

Import Tools.

(** ** [src/phases/pre-recon.js]: the two waves *)

Module Wave.

(** A property of a wave's result object. *)
Inductive WaveValue :=
| VScan (r : ToolScanResult)
| VText (s : string)
| VAgent (r : AttemptResult)
| VNull
| VUndefined.

(** How the promise of a wave settles. *)
Inductive WaveOutcome :=
| WaveResolved (response : gmap string WaveValue)
| WaveRejected (t : Thrown)
| WavePending.

(** An element pushed on the [operations] array. *)
Inductive Op :=
| OpScan (t : string)               (* runTerminalScan(t, webUrl, ...) *)
| OpResolved (r : ToolScanResult)   (* Promise.resolve({...}) *)
| OpAgent.                          (* runClaudePromptWithRetry(...) *)

(** [toolAvailability.t], as a condition. *)
Definition available (toolAvailability : gmap string bool) (t : string)
  : bool :=
  default false (toolAvailability !! t).

Definition not_available (t : string) : ToolScanResult :=
  {| tool := t; output := "Tool not available"; status := "skipped";
     duration := 0 |}.

Definition blackbox_skipped : ToolScanResult :=
  {| tool := "code-analysis"; output := "Skipped (blackbox mode)";
     status := "skipped"; duration := 0 |}.

(** [results[i]] *)
Definition at_index (results : list WaveValue) (i : nat) : WaveValue :=
  default VUndefined (results !! i).

Section Waves.

Variable errorSummary : Error -> string.
Variable w : Tools.World.
(** How the code-analysis agent ([loadPrompt] followed by
    [runClaudePromptWithRetry]) settles, when it is started. *)
Variable agent : Settled AttemptResult.
(** The order in which the scheduled operations settle. *)
Variable order : list nat.
Variable webUrl : string.

Definition start (op : Op) : Settled WaveValue :=
  match op with
  | OpScan t => Fulfilled (VScan (runTerminalScan errorSummary w t webUrl))
  | OpResolved r => Fulfilled (VScan r)
  | OpAgent =>
      match agent with
      | Fulfilled r => Fulfilled (VAgent r)
      | Rejected t => Rejected t
      end
  end.

(** The [operations] array of Wave 1 outside pipeline-testing mode. *)
Definition wave1_operations (toolAvailability : gmap string bool)
           (isBlackbox : bool) : list Op :=
  [ OpScan "nmap"; OpScan "subfinder"; OpScan "whatweb";
    if available toolAvailability "naabu" then OpScan "naabu"
    else OpResolved (not_available "naabu") ]
  ++ (if isBlackbox then [] else [OpAgent]).

(** [runPreReconWave1]; [isBlackbox] is [global.SHANNON_BLACKBOX === true]. *)
Definition runPreReconWave1 (toolAvailability : gmap string bool)
           (pipelineTestingMode isBlackbox : bool) : WaveOutcome :=
  if pipelineTestingMode then
    let operations := if isBlackbox then [] else [OpAgent] in
    let settled :=
      if (0 <? length operations)%nat
      then promise_all (map start operations) order
      else AllFulfilled [VNull] in
    match settled with
    | AllRejected t => WaveRejected t
    | AllPending => WavePending
    | AllFulfilled results =>
        let codeAnalysis := at_index results 0 in
        WaveResolved
          (<["codeAnalysis" :=
               if isBlackbox then VScan blackbox_skipped else codeAnalysis]>
          (<["naabu" := VText "Skipped (pipeline testing mode)"]>
          (<["whatweb" := VText "Skipped (pipeline testing mode)"]>
          (<["subfinder" := VText "Skipped (pipeline testing mode)"]>
          (<["nmap" := VText "Skipped (pipeline testing mode)"]> ∅)))))
    end
  else
    let operations := wave1_operations toolAvailability isBlackbox in
    match promise_all (map start operations) order with
    | AllRejected t => WaveRejected t
    | AllPending => WavePending
    | AllFulfilled results =>
        let nmap := at_index results 0 in
        let subfinder := at_index results 1 in
        let whatweb := at_index results 2 in
        let naabu := at_index results 3 in
        let codeAnalysis := at_index results 4 in
        WaveResolved
          (<["codeAnalysis" :=
               if isBlackbox then VScan blackbox_skipped else codeAnalysis]>
          (<["naabu" := naabu]>
          (<["whatweb" := whatweb]>
          (<["subfinder" := subfinder]>
          (<["nmap" := nmap]> ∅)))))
    end.

(** The [operations] array of Wave 2: one scan per available tool. *)
Definition wave2_operations (toolAvailability : gmap string bool)
  : list Op :=
  (if available toolAvailability "schemathesis"
   then [OpScan "schemathesis"] else [])
  ++ (if available toolAvailability "httpx" then [OpScan "httpx"] else [])
  ++ (if available toolAvailability "nuclei" then [OpScan "nuclei"] else [])
  ++ (if available toolAvailability "sqlmap" then [OpScan "sqlmap"] else []).

(** One step of "map results back to named properties":
    [response.t = results[resultIndex++]] when the tool is available,
    the skipped record otherwise. *)
Definition assign (toolAvailability : gmap string bool)
           (results : list WaveValue) (t : string)
           (acc : gmap string WaveValue * nat) : gmap string WaveValue * nat :=
  let '(response, resultIndex) := acc in
  if available toolAvailability t
  then (<[t := at_index results resultIndex]> response, S resultIndex)
  else (<[t := VScan (not_available t)]> response, resultIndex).

(** [runPreReconWave2] *)
Definition runPreReconWave2 (toolAvailability : gmap string bool)
           (pipelineTestingMode : bool) : WaveOutcome :=
  if pipelineTestingMode then
    WaveResolved
      {[ "schemathesis" :=
           VScan {| tool := "schemathesis";
                    output := "Skipped (pipeline testing mode)";
                    status := "skipped"; duration := 0 |} ]}
  else
    let operations := wave2_operations toolAvailability in
    if (length operations =? 0)%nat then
      WaveResolved {[ "schemathesis" := VScan (not_available "schemathesis") ]}
    else
      match promise_all (map start operations) order with
      | AllRejected t => WaveRejected t
      | AllPending => WavePending
      | AllFulfilled results =>
          let acc := (∅, 0%nat) in
          let acc := assign toolAvailability results "schemathesis" acc in
          let acc := assign toolAvailability results "httpx" acc in
          let acc := assign toolAvailability results "nuclei" acc in
          let acc := assign toolAvailability results "sqlmap" acc in
          WaveResolved (fst acc)
      end.

End Waves.

End Wave.

(** ** [src/ai/claude-executor.js] *)

Module Executor.

(** A block of an assistant message, rendered by
    [c.text || JSON.stringify(c)]. *)
Record Part := { part_text : option string; part_json : string }.

(** [message.message.content]: a string (the OpenAI adapter) or an array
    of blocks (the agent SDK). *)
Inductive Content :=
| CString (s : string)
| CParts (ps : list Part).

(** The messages yielded by [query()], by [message.type]. *)
Inductive Message :=
| MAssistant (c : Content)
| MSystemInit
| MUser
| MToolUse
| MToolResult
| MResult (result : option string) (total_cost_usd : option Q)
| MOther.

(** One run of the async iterator: the messages it yields and, when it
    does not complete normally, the error it then throws. *)
Record Stream := {
  stream_messages : list Message;
  stream_throws : option Error
}.

(** [costResults] of [src/utils/metrics.js]: [{ total, agents }]. *)
Record CostResults := {
  cr_total : Q;
  cr_agents : gmap string Q
}.

(** What the orchestration does to its collaborators, in program order. *)
Inductive Event :=
| Checkpoint (attempt : nat)          (* createGitCheckpoint *)
| StartAgent (attempt : nat) (fullPrompt : string)
                                      (* auditSession.startAgent *)
| LogEvent (kind : string)            (* auditSession.logEvent *)
| Execute (attempt : nat) (r : AttemptResult)
                                      (* runClaudePrompt returned r *)
| WriteDeliverable (text : string)    (* fs.writeFile of the deliverable *)
| EndAgent (attempt : nat) (cost_usd : Q) (success : bool)
           (error : option string) (isFinalAttempt : option bool)
                                      (* auditSession.endAgent *)
| Commit                              (* commitGitSuccess *)
| Rollback (reason : string)          (* rollbackGitWorkspace *)
| Delay (ms : Z).                     (* setTimeout(resolve, delay) *)

(** What [runClaudePromptWithRetry] does in the end. *)
Inductive Outcome :=
| Returned (r : AttemptResult)
| Threw (t : Thrown).

(** The world of one agent invocation, by attempt number. *)
Record World := {
  (** what [query()] streams on this attempt *)
  stream : nat -> Stream;
  (** [timer.stop()] of this attempt *)
  timer_duration : nat -> Z;
  (** [AGENT_VALIDATORS]: for an agent name, what its validator finds in
      the workspace left by this attempt ([None]: the validator throws) *)
  AGENT_VALIDATORS : gmap string (nat -> option bool);
  (** [fs.pathExists] of the code-analysis deliverable on this attempt *)
  deliverable_exists : nat -> bool
}.

(** [sessionMetadata]: [{ id, webUrl }]. *)
Record SessionMetadata := {
  sm_id : option string;
  sm_webUrl : string
}.

(** Ambient configuration read by the executor. *)
Record Config := {
  (** [process.env.SHANNON_LLM_PROVIDER] is ['openai'] *)
  isTextOnly : bool;
  (** [global.SHANNON_RELAX_VALIDATION] *)
  SHANNON_RELAX_VALIDATION : bool
}.

Definition is_space (c : Ascii.ascii) : bool :=
  let n := Ascii.nat_of_ascii c in
  (n =? 32)%nat || ((9 <=? n)%nat && (n <=? 13)%nat).

(** [s.replace(/\s+/g, '-')] *)
Fixpoint dash_spaces (in_run : bool) (s : string) : string :=
  match s with
  | EmptyString => EmptyString
  | String c s' =>
      if is_space c then
        if in_run then dash_spaces true s'
        else String "-"%char (dash_spaces true s')
      else String c (dash_spaces false s')
  end.

(** [description.toLowerCase().replace(/\s+/g, '-')] *)
Definition agentKey (description : string) : string :=
  dash_spaces false (toLowerCase description).

Definition render_part (c : Part) : string :=
  or_else (part_text c) (part_json c).

Definition render (c : Content) : string :=
  match c with
  | CString s => s
  | CParts ps => join nl (map render_part ps)
  end.

(** The variables of [runClaudePrompt] that the message loop updates. *)
Record Loop := {
  l_result : option string;
  l_messages : list string;
  l_apiErrorDetected : bool;
  l_turnCount : nat;
  l_totalCost : Q;
  l_partialCost : Q;
  l_costs : CostResults;
  l_log : list Event
}.

(** How one iteration of [for await (const message of query(...))] ends. *)
Inductive Step :=
| Next (l : Loop)
| Break (l : Loop)
| Throws (e : Error) (l : Loop).

Definition log_event (audit : bool) (kind : string) (l : Loop) : Loop :=
  if audit
  then {| l_result := l_result l; l_messages := l_messages l;
          l_apiErrorDetected := l_apiErrorDetected l;
          l_turnCount := l_turnCount l; l_totalCost := l_totalCost l;
          l_partialCost := l_partialCost l; l_costs := l_costs l;
          l_log := l_log l ++ [LogEvent kind] |}
  else l.

Definition on_message (audit : bool) (description : string) (l : Loop)
           (m : Message) : Step :=
  match m with
  | MAssistant c =>
      let content := render c in
      let l := {| l_result := l_result l; l_messages := l_messages l;
                  l_apiErrorDetected := l_apiErrorDetected l;
                  l_turnCount := S (l_turnCount l);
                  l_totalCost := l_totalCost l;
                  l_partialCost := l_partialCost l; l_costs := l_costs l;
                  l_log := l_log l |} in
      let l := log_event audit "llm_response" l in
      let l := {| l_result := l_result l;
                  l_messages := l_messages l ++ [content];
                  l_apiErrorDetected := l_apiErrorDetected l;
                  l_turnCount := l_turnCount l;
                  l_totalCost := l_totalCost l;
                  l_partialCost := l_partialCost l; l_costs := l_costs l;
                  l_log := l_log l |} in
      if truthy content then
        let lowerContent := toLowerCase content in
        if includes "session limit reached" lowerContent then
          Throws (PentestError "Session limit reached" "billing" false) l
        else if includes "api error" lowerContent
                || includes "terminated" lowerContent then
          Next {| l_result := l_result l; l_messages := l_messages l;
                  l_apiErrorDetected := true;
                  l_turnCount := l_turnCount l;
                  l_totalCost := l_totalCost l;
                  l_partialCost := l_partialCost l; l_costs := l_costs l;
                  l_log := l_log l |}
        else Next l
      else Next l
  | MSystemInit => Next l
  | MUser => Next l
  | MToolUse => Next (log_event audit "tool_start" l)
  | MToolResult => Next (log_event audit "tool_end" l)
  | MResult result total_cost_usd =>
      let cost := num_or_zero total_cost_usd in
      Break {| l_result := result; l_messages := l_messages l;
               l_apiErrorDetected := l_apiErrorDetected l;
               l_turnCount := l_turnCount l;
               l_totalCost := cost;
               l_partialCost := cost;
               l_costs :=
                 {| cr_total := (cr_total (l_costs l) + cost)%Q;
                    cr_agents :=
                      <[agentKey description := cost]>
                        (cr_agents (l_costs l)) |};
               l_log := l_log l |}
  | MOther => Next l
  end.

(** The whole loop: [inl] when it ends by [break] or by exhausting the
    iterator, [inr] when an error reaches the outer [catch]. *)
Fixpoint consume (audit : bool) (description : string)
         (ends : option Error) (ms : list Message) (l : Loop)
  : Loop + Error * Loop :=
  match ms with
  | [] =>
      match ends with
      | Some e => inr (e, l)
      | None => inl l
      end
  | m :: rest =>
      match on_message audit description l m with
      | Next l' => consume audit description ends rest l'
      | Break l' => inl l'
      | Throws e l' => inr (e, l')
      end
  end.

Section Orchestrator.

(** [isRetryableError] and [getRetryDelay] of [src/error-handling.js],
    which is not among the sources: the classification of errors and the
    backoff are parameters of the development. *)
Variable isRetryableError : Error -> bool.
Variable getRetryDelay : Error -> nat -> Z.

Variable cfg : Config.
Variable w : World.

(** [validateAgentOutput(result, agentName, sourceDir)], on the
    workspace left by attempt [attempt]. *)
Definition validateAgentOutput (result : AttemptResult)
           (agentName : option string) (attempt : nat) : bool :=
  if SHANNON_RELAX_VALIDATION cfg && isTextOnly cfg
     && (bool_decide (agentName = Some "pre-recon")
         || bool_decide (agentName = Some "recon"))
  then true
  else if negb (ar_success result)
          || negb (truthy (default "" (ar_result result)))
  then false
  else
    match agentName ≫= (λ n, AGENT_VALIDATORS w !! n) with
    | None => true
    | Some validator =>
        match validator attempt with
        | Some validationResult => validationResult
        | None => false
        end
    end.

(** [runClaudePrompt(...)]: the returned object, [costResults]
    afterwards, and what was sent to the audit log. *)
Definition runClaudePrompt (description : string) (audit : bool)
           (attemptNumber : nat) (costs : CostResults)
  : AttemptResult * CostResults * list Event :=
  let init := {| l_result := None; l_messages := [];
                 l_apiErrorDetected := false; l_turnCount := 0;
                 l_totalCost := 0; l_partialCost := 0;
                 l_costs := costs; l_log := [] |} in
  let s := stream w attemptNumber in
  match consume audit description (stream_throws s)
                (stream_messages s) init with
  | inl l =>
      let result :=
        if negb (truthy (default "" (l_result l)))
           && (0 <? length (l_messages l))%nat
        then Some (join nl (l_messages l))
        else l_result l in
      ({| ar_result := result; ar_success := true;
          ar_duration := timer_duration w attemptNumber;
          ar_turns := Some (l_turnCount l);
          ar_cost := l_totalCost l;
          ar_partialCost := Some (l_partialCost l);
          ar_apiErrorDetected := l_apiErrorDetected l;
          ar_error := None; ar_errorType := None;
          ar_retryable := None |},
       l_costs l, l_log l)
  | inr (error, l) =>
      let l := log_event audit "error" l in
      ({| ar_result := None; ar_success := false;
          ar_duration := timer_duration w attemptNumber;
          ar_turns := None;
          ar_cost := l_partialCost l;
          ar_partialCost := None;
          ar_apiErrorDetected := false;
          ar_error := Some (err_message error);
          ar_errorType := Some (err_name error);
          ar_retryable := Some (isRetryableError error) |},
       l_costs l, l_log l)
  end.

(** The variables of [runClaudePromptWithRetry] that survive an
    iteration, with the effects so far. *)
Record State := {
  lastError : Thrown;
  retryContext : string;
  costResults : CostResults;
  trace : list Event
}.

Definition emit (evs : list Event) (st : State) : State :=
  {| lastError := lastError st; retryContext := retryContext st;
     costResults := costResults st; trace := trace st ++ evs |}.

Definition set_lastError (t : Thrown) (st : State) : State :=
  {| lastError := t; retryContext := retryContext st;
     costResults := costResults st; trace := trace st |}.

Definition set_retryContext (c : string) (st : State) : State :=
  {| lastError := lastError st; retryContext := c;
     costResults := costResults st; trace := trace st |}.

Definition set_costResults (c : CostResults) (st : State) : State :=
  {| lastError := lastError st; retryContext := retryContext st;
     costResults := c; trace := trace st |}.

Definition maxRetries : nat := 3.

(** How the body of the [for] loop ends. *)
Inductive Iteration :=
| Continue (st : State)
| Done (o : Outcome) (st : State).

Section Invocation.

Variables (prompt context description : string).
Variable agentName : option string.
(** [auditSession] is not [null] *)
Variable audit : bool.

(** The error thrown when the last attempt fails validation;
    [${maxRetries}] is [3]. *)
Definition validation_exhausted : Error :=
  PentestError
    ("Agent " +:+ description
       +:+ " failed output validation after 3 attempts. Required deliverable files were not created.")
    "validation" false.

(** The [catch (error)] block of the loop body. *)
Definition on_catch (attempt : nat) (error : Error) (st : State)
  : Iteration :=
  let st := set_lastError (ThrowError error) st in
  let st :=
    if audit
    then emit [EndAgent attempt (num_or_zero (err_cost error)) false
                 (Some (err_message error))
                 (Some (attempt =? maxRetries)%nat)] st
    else st in
  if negb (isRetryableError error) then
    Done (Threw (ThrowError error))
         (emit [Rollback "non-retryable error cleanup"] st)
  else if (attempt <? maxRetries)%nat then
    let st := emit [Rollback "retryable error cleanup"] st in
    let delay := getRetryDelay error attempt in
    let st :=
      match err_partialResults error with
      | Some partialResults =>
          if truthy partialResults
          then set_retryContext
                 (context +:+ nl +:+ nl +:+ "Previous partial results: "
                    +:+ partialResults) st
          else st
      | None => st
      end in
    Continue (emit [Delay delay] st)
  else
    Continue (emit [Rollback "final failure cleanup"] st).

(** The body of [for (let attempt = 1; attempt <= maxRetries; attempt++)].
    The calls that save a text-only pre-recon result as the deliverable
    ([fs.pathExists], [fs.ensureDir], [fs.writeFile]) are taken to
    return, as are the git and audit helpers: a run in which one of them
    throws is not described. *)
Definition iteration (attempt : nat) (st : State) : Iteration :=
  let st := emit [Checkpoint attempt] st in
  let st :=
    if audit then
      let fullPrompt :=
        if truthy (retryContext st)
        then retryContext st +:+ nl +:+ nl +:+ prompt
        else prompt in
      emit [StartAgent attempt fullPrompt] st
    else st in
  let '(result, costs, logged) :=
    runClaudePrompt description audit attempt (costResults st) in
  let st := set_costResults costs st in
  let st := emit (logged ++ [Execute attempt result]) st in
  if ar_success result then
    let st :=
      if isTextOnly cfg && bool_decide (agentName = Some "pre-recon")
         && truthy (default "" (ar_result result))
         && negb (deliverable_exists w attempt)
      then emit [WriteDeliverable (default "" (ar_result result))] st
      else st in
    let validationPassed := validateAgentOutput result agentName attempt in
    if validationPassed then
      let st :=
        if audit
        then emit [EndAgent attempt (num_or (Some (ar_cost result)) 0)
                     true None None] st
        else st in
      Done (Returned result) (emit [Commit] st)
    else
      let st :=
        if audit
        then emit [EndAgent attempt
                     (num_or (ar_partialCost result)
                        (num_or (Some (ar_cost result)) 0))
                     false (Some "Output validation failed")
                     (Some (attempt =? maxRetries)%nat)] st
        else st in
      let st :=
        if ar_apiErrorDetected result
        then set_lastError
               (ThrowError
                  (mkError "API Error: terminated with validation failure"))
               st
        else set_lastError
               (ThrowError (mkError "Output validation failed")) st in
      if (attempt <? maxRetries)%nat then
        Continue (emit [Rollback "validation failure"] st)
      else
        on_catch attempt validation_exhausted st
  else
    Continue st.

(** The [for] loop, from [attempt] on, with [remaining] iterations
    left, followed by [throw lastError]. *)
Fixpoint attempts (remaining attempt : nat) (st : State)
  : Outcome * State :=
  match remaining with
  | O => (Threw (lastError st), st)
  | S remaining' =>
      match iteration attempt st with
      | Continue st' => attempts remaining' (S attempt) st'
      | Done o st' => (o, st')
      end
  end.

End Invocation.

(** [sessionMetadata && agentName]: whether an audit session is created. *)
Definition has_audit (sessionMetadata : option SessionMetadata)
           (agentName : option string) : bool :=
  match sessionMetadata, agentName with
  | Some _, Some n => truthy n
  | _, _ => false
  end.

(** [runClaudePromptWithRetry(prompt, sourceDir, allowedTools, context,
    description, agentName, colorFn, sessionMetadata)] *)
Definition runClaudePromptWithRetry (prompt context description : string)
           (agentName : option string)
           (sessionMetadata : option SessionMetadata) (costs : CostResults)
  : Outcome * State :=
  attempts prompt context description agentName
    (has_audit sessionMetadata agentName) maxRetries 1
    {| lastError := ThrowUndefined; retryContext := context;
       costResults := costs; trace := [] |}.

End Orchestrator.


End Executor.

(** ** [shannon.mjs]: session progress, phase steps, signal handlers *)

Module Session.

Import Executor.

(** The session object, with the properties the pipeline updates. *)
Record Session := {
  id : string;
  completedAgents : list string;
  failedAgents : list string;
  checkpoints : gmap string string;
  status : string
}.

(** [[...new Set(l)]]: the elements of [l] in order of first occurrence. *)
Fixpoint uniq (seen : list string) (l : list string) : list string :=
  match l with
  | [] => []
  | x :: rest =>
      if bool_decide (x ∈ seen) then uniq seen rest
      else x :: uniq (x :: seen) rest
  end.

(** The [updates] object built by [updateSessionProgress]; the
    [checkpoints] property is present only for a truthy [commitHash]. *)
Record Updates := {
  u_completedAgents : list string;
  u_failedAgents : list string;
  u_status : string;
  u_checkpoints : option (gmap string string)
}.

Definition make_updates (session : Session) (agentName : string)
           (commitHash : option string) : Updates :=
  {| u_completedAgents := uniq [] (completedAgents session ++ [agentName]);
     u_failedAgents :=
       List.filter (λ name, negb (String.eqb name agentName))
                   (failedAgents session);
     u_status := "in-progress";
     u_checkpoints :=
       match commitHash with
       | Some h =>
           if truthy h then Some (<[agentName := h]> (checkpoints session))
           else None
       | None => None
       end |}.

(** [Object.assign(session, updates)] *)
Definition assign (session : Session) (updates : Updates) : Session :=
  {| id := id session;
     completedAgents := u_completedAgents updates;
     failedAgents := u_failedAgents updates;
     checkpoints := default (checkpoints session) (u_checkpoints updates);
     status := u_status updates |}.

(** [updateSessionProgress(agentName, commitHash = null)].  [persisted]
    tells whether [await updateSession(session.id, updates)] returned;
    when it throws, the [catch] only logs a warning and the local session
    object is not assigned. *)
Definition updateSessionProgress (persisted : bool) (session : Session)
           (agentName : string) (commitHash : option string) : Session :=
  let updates := make_updates session agentName commitHash in
  if persisted then assign session updates else session.

(** Modelled from the spec: the agent descriptors of
    [src/session-manager.js], which is not among the sources.  Section 3:
    an agent is a static descriptor with, among others, a name and a
    phase. *)
Record Agent := { name : string; phase : nat }.

(** Modelled from the spec: [getNextAgent] of [src/session-manager.js],
    which is not among the sources.  Section 4.6: "scans the fixed ordered
    catalog of agents, returns the first whose name is not in
    [completedAgents]; returns null when all are completed". *)
Definition getNextAgent (catalog : list Agent) (session : Session)
  : option Agent :=
  List.find (λ a, negb (bool_decide (name a ∈ completedAgents session)))
            catalog.

Definition vuln_agents : list string :=
  ["injection-vuln"; "xss-vuln"; "auth-vuln"; "ssrf-vuln"; "authz-vuln"].

Definition exploit_agents : list string :=
  ["injection-exploit"; "xss-exploit"; "auth-exploit"; "ssrf-exploit";
   "authz-exploit"].

(** [startPhase] of [main], as a function of the next agent's name. *)
Definition startPhase (n : string) : nat :=
  if String.eqb n "pre-recon" then 1
  else if String.eqb n "recon" then 2
  else if bool_decide (n ∈ vuln_agents) then 3
  else if bool_decide (n ∈ exploit_agents) then 4
  else if String.eqb n "report" then 5
  else 1.

(** Modelled from the spec: the catalog order of section 8,
    [[pre-recon, recon, A1..A5, E1..E5, report]], with the agent names
    that [main] lists for phases 3 and 4. *)
Definition AGENTS : list Agent :=
  map (λ n, {| name := n; phase := startPhase n |})
      (["pre-recon"; "recon"] ++ vuln_agents ++ exploit_agents ++ ["report"]).

(** How a phase step of [main] ends: the session afterwards, and the
    value thrown out of [main] if the step fails. *)
Inductive StepResult :=
| StepDone (s : Session)
| StepThrows (t : Thrown) (s : Session).

Section Phases.

Variable isRetryableError : Error -> bool.
Variable getRetryDelay : Error -> nat -> Z.
Variable cfg : Config.
Variable w : World.
Variables (webUrl prompt description : string).
Variable costs : CostResults.
(** whether the session store accepts the update *)
Variable persisted : bool.

(** [{ id: session.id, webUrl }] *)
Definition metadata (session : Session) : option SessionMetadata :=
  Some {| sm_id := Some (id session); sm_webUrl := webUrl |}.

(** PHASE 2 of [main]: run the recon agent, then record it. *)
Definition phase2_recon (session : Session) : StepResult :=
  match runClaudePromptWithRetry isRetryableError getRetryDelay cfg w
          prompt "" description (Some "recon") (metadata session) costs with
  | (Returned _, _) =>
      StepDone (updateSessionProgress persisted session "recon" None)
  | (Threw t, _) => StepThrows t session
  end.

(** PHASE 5 of [main]: run the report agent, then record it with the
    commit hash.  [reportCommitHash] is what [getGitCommitHash] returns;
    on [null] the [substring] call throws and the [catch] records the
    agent again without a checkpoint. *)
Definition phase5_report (reportCommitHash : option string)
           (session : Session) : StepResult :=
  match runClaudePromptWithRetry isRetryableError getRetryDelay cfg w
          prompt "" description (Some "report") (metadata session) costs with
  | (Returned _, _) =>
      let session :=
        updateSessionProgress persisted session "report" reportCommitHash in
      match reportCommitHash with
      | Some _ => StepDone session
      | None =>
          StepDone (updateSessionProgress persisted session "report" None)
      end
  | (Threw t, _) => StepThrows t session
  end.

End Phases.

End Session.

Module Signals.

Inductive Signal := SIGINT | SIGTERM.

(** What a handler does, in program order. *)
Inductive Effect :=
| ConsoleLog (line : string)
| RollbackWorkspace               (* rollbackGitWorkspace *)
| Exit (code : Z).                (* process.exit(code) *)

(** The process as a signal finds it: the attempt in flight, if any, with
    the workspace changes it has made since its checkpoint. *)
Record Process := {
  in_flight : option nat;
  uncommitted : list string;
  exited : option Z;
  effects : list Effect
}.

Definition perform (p : Process) (e : Effect) : Process :=
  match exited p with
  | Some _ => p
  | None =>
      match e with
      | ConsoleLog _ =>
          {| in_flight := in_flight p; uncommitted := uncommitted p;
             exited := None; effects := effects p ++ [e] |}
      | RollbackWorkspace =>
          {| in_flight := in_flight p; uncommitted := [];
             exited := None; effects := effects p ++ [e] |}
      | Exit code =>
          {| in_flight := in_flight p; uncommitted := uncommitted p;
             exited := Some code; effects := effects p ++ [e] |}
      end
  end.

(** The bodies of [process.on('SIGINT', ...)] and
    [process.on('SIGTERM', ...)]. *)
Definition handler (s : Signal) : list Effect :=
  match s with
  | SIGINT => [ConsoleLog "Received SIGINT, cleaning up..."; Exit 0]
  | SIGTERM => [ConsoleLog "Received SIGTERM, cleaning up..."; Exit 0]
  end.

Definition deliver (s : Signal) (p : Process) : Process :=
  foldl perform p (handler s).

End Signals.

(** ** Vocabulary of the stated properties *)

Module Props.

Import Wave Executor Signals.

(** Every scheduled operation settles at some point of [order]. *)
Definition all_settled (ops : list Op) (order : list nat) : Prop :=
  ∀ i : nat, (i < length ops)%nat → i ∈ order.

(** The optional operations of the additional-scanning wave. *)
Definition wave2_tools : list string :=
  ["schemathesis"; "httpx"; "nuclei"; "sqlmap"].

(** The wave resolves with each optional name bound to its own result:
    the scan of that very tool when it is available, the skipped record
    of that name when it is not. *)
Definition attributed (errorSummary : Error → string) (w : Tools.World)
           (webUrl : string) (toolAvailability : gmap string bool)
           (outcome : WaveOutcome) : Prop :=
  ∃ response, outcome = WaveResolved response ∧
    ∀ t, t ∈ wave2_tools →
      ∃ r, response !! t = Some (VScan r) ∧ tool r = t ∧
        (available toolAvailability t = true →
           r = runTerminalScan errorSummary w t webUrl) ∧
        (available toolAvailability t = false →
           r = not_available t ∧ status r = "skipped").








(** The collaborator calls that make up a cycle. *)
Inductive Kind :=
| KCheckpoint (attempt : nat)
| KExecute (attempt : nat)
| KRollback
| KCommit.

Definition kind_of (e : Event) : option Kind :=
  match e with
  | Checkpoint n => Some (KCheckpoint n)
  | Execute n _ => Some (KExecute n)
  | Rollback _ => Some KRollback
  | Commit => Some KCommit
  | _ => None
  end.

Definition kinds (tr : list Event) : list Kind := omap kind_of tr.

(** The objects returned by [runClaudePrompt], one per attempt made. *)
Definition executed (tr : list Event) : list AttemptResult :=
  omap (λ e, match e with Execute _ r => Some r | _ => None end) tr.

(** The [cost_usd] of every record handed to [auditSession.endAgent]. *)
Definition reported_costs (tr : list Event) : list Q :=
  omap (λ e, match e with EndAgent _ c _ _ _ => Some c | _ => None end) tr.

Definition sumQ (l : list Q) : Q := foldr Qplus 0%Q l.

(** On every attempt of the budget the execution reports success and the
    validation of the agent's output fails. *)
Definition validator_always_fails (isRetryableError : Error → bool)
           (cfg : Config) (w : World) (agentName : option string) : Prop :=
  ∀ (attempt : nat) description audit costs,
    (1 ≤ attempt ≤ maxRetries)%nat →
    let r := (runClaudePrompt isRetryableError w description audit
                attempt costs).1.1 in
    ar_success r = true
    ∧ validateAgentOutput cfg w r agentName attempt = false.

(** What an iteration leaves alone when it neither breaks nor is the
    result message: the cost variables and [costResults]. *)
Definition same_costs (l l' : Loop) : Prop :=
  l_totalCost l' = l_totalCost l ∧ l_partialCost l' = l_partialCost l
  ∧ l_costs l' = l_costs l.

(** What the result message does: the same cost goes to [totalCost], to
    [partialCost] and onto [costResults.total]. *)
Definition cost_booked (l l' : Loop) : Prop :=
  l_partialCost l' = l_totalCost l'
  ∧ cr_total (l_costs l') = (cr_total (l_costs l) + l_totalCost l')%Q.

(** Only [auditSession.logEvent] calls are made inside the loop. *)
Definition only_logs (evs : list Event) : Prop :=
  Forall (λ e, ∃ kind, e = LogEvent kind) evs.

(** The books after an iteration that executed [r]: its cost is on
    [costResults.total], it is the last execution on record and, with an
    audit session, the costs reported to it have grown by the same amount. *)
Definition accounted (audit : bool) (r : AttemptResult)
           (st st' : State) : Prop :=
  (cr_total (costResults st') == cr_total (costResults st) + ar_cost r)%Q
  ∧ executed (trace st') = (executed (trace st) ++ [r])%list
  ∧ (audit = true →
     (sumQ (reported_costs (trace st'))
      == sumQ (reported_costs (trace st)) + ar_cost r)%Q).

(** No agent name is both completed and failed. *)
Definition disjoint (s : Session.Session) : Prop :=
  ∀ n, ¬ (n ∈ Session.completedAgents s ∧ n ∈ Session.failedAgents s).

(** Every checkpoint belongs to a completed agent. *)
Definition checkpointed (s : Session.Session) : Prop :=
  ∀ n, is_Some (Session.checkpoints s !! n) → n ∈ Session.completedAgents s.

(** The postcondition of a progress update. *)
Definition recorded (agentName : string) (s : Session.Session) : Prop :=
  agentName ∈ Session.completedAgents s
  ∧ agentName ∉ Session.failedAgents s.

End Props.

(** ** Concrete worlds *)

Module Examples.

Import Wave Executor Signals.

Definition summary (e : Error) : string := "Error: " +:+ err_message e.

(** Every external command succeeds and prints ["ok"]; two schema files. *)
Definition calm : Tools.World :=
  {| url_hostname := λ _, inr "example.com";
     run_tool := λ _, Exit0 "ok";
     timer_stop := λ _, 1200%Z;
     schemas_dir_exists := true;
     schemas_readdir := inr ["api.json"; "notes.txt"];
     run_schemathesis := λ _, Exit0 "passed" |}.

(** As [calm], but [whatweb] and [nuclei] exit non-zero. *)
Definition two_down : Tools.World :=
  {| url_hostname := λ _, inr "example.com";
     run_tool := λ t, if String.eqb t "whatweb" || String.eqb t "nuclei"
                      then ProcFails (mkError "exit code 2")
                      else Exit0 "ok";
     timer_stop := λ _, 1200%Z;
     schemas_dir_exists := true;
     schemas_readdir := inr ["api.json"; "notes.txt"];
     run_schemathesis := λ _, Exit0 "passed" |}.


(** A code analysis that went through. *)
Definition analysis_done : AttemptResult :=
  {| ar_result := Some "done"; ar_success := true; ar_duration := 60000;
     ar_turns := Some 1%nat; ar_cost := 1 # 4; ar_partialCost := Some (1 # 4);
     ar_apiErrorDetected := false; ar_error := None; ar_errorType := None;
     ar_retryable := None |}.

Definition all_tools : gmap string bool :=
  list_to_map [("nmap", true); ("subfinder", true); ("whatweb", true);
               ("schemathesis", true); ("naabu", true); ("httpx", true);
               ("nuclei", true); ("sqlmap", true)].

(** Only [httpx] and [nuclei] of the optional tools are installed. *)
Definition some_tools : gmap string bool :=
  list_to_map [("nmap", true); ("subfinder", true); ("whatweb", true);
               ("schemathesis", false); ("naabu", false); ("httpx", true);
               ("nuclei", true); ("sqlmap", false)].


Definition no_wave2_tools : gmap string bool :=
  list_to_map [("nmap", true); ("subfinder", true); ("whatweb", true);
               ("schemathesis", false); ("naabu", true); ("httpx", false);
               ("nuclei", false); ("sqlmap", false)].

(** Classification by the flag carried by the error. *)
Definition by_flag (e : Error) : bool := err_retryable e.

Definition backoff (e : Error) (attempt : nat) : Z :=
  (1000 * 2 ^ Z.of_nat attempt)%Z.

Definition plain : Config :=
  {| isTextOnly := false; SHANNON_RELAX_VALIDATION := false |}.

Definition no_costs : CostResults := {| cr_total := 0; cr_agents := ∅ |}.

Definition finished (cost : Q) : Stream :=
  {| stream_messages :=
       [MSystemInit; MAssistant (CString "Working on it");
        MResult (Some "done") (Some cost)];
     stream_throws := None |}.

(** Every attempt completes and costs a quarter of a dollar, and the
    validator of every agent finds the deliverables missing. *)
Definition never_valid : World :=
  {| stream := λ _, finished (1 # 4);
     timer_duration := λ _, 60000%Z;
     AGENT_VALIDATORS :=
       list_to_map [("pre-recon", λ _, Some false);
                    ("recon", λ _, Some false);
                    ("report", λ _, Some false)];
     deliverable_exists := λ _, false |}.

(** The stream breaks with an authentication error on every attempt. *)
Definition auth_failure : World :=
  {| stream := λ _,
       {| stream_messages := [MSystemInit];
          stream_throws :=
            Some (PentestError "authentication failed" "config" false) |};
     timer_duration := λ _, 500%Z;
     AGENT_VALIDATORS := list_to_map [("recon", λ _, Some true)];
     deliverable_exists := λ _, false |}.

(** The assistant reports the exhausted quota on every attempt. *)
Definition quota_exhausted : World :=
  {| stream := λ _,
       {| stream_messages :=
            [MSystemInit;
             MAssistant (CString "Session limit reached. Resets at 5pm.");
             MResult (Some "done") (Some (1 # 4))];
          stream_throws := None |};
     timer_duration := λ _, 500%Z;
     AGENT_VALIDATORS := list_to_map [("recon", λ _, Some true)];
     deliverable_exists := λ _, false |}.

(** The first attempt is rejected by the validator, the second passes. *)
Definition second_time_lucky : World :=
  {| stream := λ n, if (n =? 1)%nat then finished (1 # 4) else finished (1 # 2);
     timer_duration := λ _, 60000%Z;
     AGENT_VALIDATORS :=
       list_to_map [("recon", λ n, Some (negb (n =? 1)%nat))];
     deliverable_exists := λ _, false |}.

Definition meta : option SessionMetadata :=
  Some {| sm_id := Some "s-1"; sm_webUrl := "https://example.com" |}.


Definition fresh : Session.Session :=
  {| Session.id := "s-1"; Session.completedAgents := ["pre-recon"];
     Session.failedAgents := ["recon"]; Session.checkpoints := ∅;
     Session.status := "in-progress" |}.

(** An attempt is in flight and has written two files. *)
Definition mid_attempt : Process :=
  {| in_flight := Some 1;
     uncommitted := ["deliverables/recon_deliverable.md"; "error.log"];
     exited := None; effects := [] |}.

End Examples.

(** ** [src/tool-checker.js] *)

Module ToolChecker.

(** The tools probed at start-up, in probing order. *)
Definition tools : list string :=
  ["nmap"; "subfinder"; "whatweb"; "schemathesis"; "naabu"; "httpx";
   "nuclei"; "sqlmap"].

(** [availability[tool] = v] on an object kept as the list of its entries,
    in the order in which the keys were first assigned (the order of
    [Object.entries]). *)
Fixpoint set_entry (k : string) (v : bool) (o : list (string * bool))
  : list (string * bool) :=
  match o with
  | [] => [(k, v)]
  | (k', v') :: rest =>
      if String.eqb k' k then (k, v) :: rest
      else (k', v') :: set_entry k v rest
  end.

(** [checkToolAvailability()]; [found t] tells whether [command -v t]
    exits with 0 (otherwise zx throws and the [catch] records [false]). *)
Definition checkToolAvailability (found : string -> bool)
  : list (string * bool) :=
  foldl (λ availability t, set_entry t (found t) availability) [] tools.

(** The object as the map that the waves read. *)
Definition as_map (o : list (string * bool)) : gmap string bool :=
  list_to_map o.

(** [handleMissingTools(toolAvailability)]: the value it returns. *)
Definition handleMissingTools (toolAvailability : list (string * bool))
  : list string :=
  map fst (List.filter (λ e, negb (snd e)) toolAvailability).

End ToolChecker.

(** ** [src/phases/pre-recon.js]: the report and the phase *)

Module Report.

Import Wave.

Definition upper_ascii (c : Ascii.ascii) : Ascii.ascii :=
  let n := Ascii.nat_of_ascii c in
  if (97 <=? n)%nat && (n <=? 122)%nat then Ascii.ascii_of_nat (n - 32) else c.

(** [s.toUpperCase()], on the ASCII range. *)
Fixpoint toUpperCase (s : string) : string :=
  match s with
  | EmptyString => EmptyString
  | String c s' => String (upper_ascii c) (toUpperCase s')
  end.

Fixpoint trimStart (s : string) : string :=
  match s with
  | EmptyString => EmptyString
  | String c s' => if Executor.is_space c then trimStart s' else s
  end.

(** [s.trim()], for ASCII white space. *)
Definition trim (s : string) : string :=
  String.rev (trimStart (String.rev (trimStart s))).

(** Whether a value is truthy. *)
Definition truthy_value (v : WaveValue) : bool :=
  match v with
  | VScan _ | VAgent _ => true
  | VText s => truthy s
  | VNull | VUndefined => false
  end.

(** [response.key] *)
Definition prop (response : gmap string WaveValue) (key : string)
  : WaveValue :=
  default VUndefined (response !! key).

(** [${x?.status || 'Skipped'}] *)
Definition status_text (x : WaveValue) : string :=
  match x with
  | VScan r => or_else (Some (status r)) "Skipped"
  | _ => "Skipped"
  end.

(** [${x?.output || x || 'No output'}]; an object that is interpolated
    reads ["[object Object]"]. *)
Definition output_text (x : WaveValue) : string :=
  match x with
  | VScan r => if truthy (output r) then output r else "[object Object]"
  | VAgent _ => "[object Object]"
  | VText s => if truthy s then s else "No output"
  | VNull | VUndefined => "No output"
  end.

(** What the [forEach] over [additionalScans] appends for one scan. *)
Definition scan_section (scan : WaveValue) : string :=
  match scan with
  | VScan r =>
      if truthy (tool r) then
        nl +:+ "### " +:+ toUpperCase (tool r) +:+ nl
          +:+ "Status: " +:+ status r +:+ nl
          +:+ output r +:+ nl
      else ""
  | _ => ""
  end.

Definition additional_section (additionalScans : list WaveValue) : string :=
  if (0 <? length additionalScans)%nat then
    foldl (λ section scan, section +:+ scan_section scan)
          (nl +:+ "## Additional DAST Scans" +:+ nl) additionalScans
  else "".

(** The file system and the clock, as the phase finds them. *)
Record Files := {
  (** [fs.readFile] of [deliverables/code_analysis_deliverable.md] *)
  read_code_analysis : Error + string;
  (** the error of [fs.ensureDir] or [fs.writeFile] of the report, if any *)
  write_report : option Error;
  (** [new Date().toISOString()] *)
  now : string;
  (** [timer.stop()] of the phase timer *)
  phase_duration : Z
}.

Section Stitch.

Variable fs : Files.

(** The template literal of the report, before [.trim()]. *)
Definition report_template (nmap subfinder whatweb naabu : WaveValue)
           (codeAnalysisContent additionalSection : string) : string :=
  join nl
    [ "";
      "# Pre-Reconnaissance Report";
      "";
      "## Port Discovery (naabu)";
      "Status: " +:+ status_text naabu;
      output_text naabu;
      "";
      "## Network Scanning (nmap)";
      "Status: " +:+ status_text nmap;
      output_text nmap;
      "";
      "## Subdomain Discovery (subfinder)";
      "Status: " +:+ status_text subfinder;
      output_text subfinder;
      "";
      "## Technology Detection (whatweb)";
      "Status: " +:+ status_text whatweb;
      output_text whatweb;
      "## Code Analysis";
      codeAnalysisContent;
      additionalSection;
      "---";
      "Report generated at: " +:+ now fs;
      "  " ].

(** [stitchPreReconOutputs(outputs, sourceDir)] *)
Definition stitchPreReconOutputs (outputs : list WaveValue)
  : Settled string :=
  let nmap := at_index outputs 0 in
  let subfinder := at_index outputs 1 in
  let whatweb := at_index outputs 2 in
  let naabu := at_index outputs 3 in
  let additionalScans := drop 5 outputs in
  let codeAnalysisContent :=
    match read_code_analysis fs with
    | inr content => content
    | inl _ => "Analysis located in deliverables/code_analysis_deliverable.md"
    end in
  let additionalSection := additional_section additionalScans in
  let report :=
    trim (report_template nmap subfinder whatweb naabu codeAnalysisContent
            additionalSection) in
  match write_report fs with
  | Some error =>
      Rejected
        (ThrowError
           (PentestError
              ("Failed to write pre-recon report: " +:+ err_message error)
              "filesystem" false))
  | None => Fulfilled report
  end.

(** How the promise of [executePreReconPhase] settles. *)
Inductive PhaseOutcome :=
| PhaseDone (duration : Z) (report : string)
| PhaseRejected (t : Thrown)
| PhasePending.

Variable errorSummary : Error -> string.
Variable w : Tools.World.
Variable agent : Settled AttemptResult.
(** the settling orders of the operations of Wave 1 and of Wave 2 *)
Variables (order1 order2 : list nat).
Variable webUrl : string.

(** [executePreReconPhase(webUrl, sourceDir, variables, config,
    toolAvailability, pipelineTestingMode, blackboxMode, sessionId)];
    [isBlackbox] is [global.SHANNON_BLACKBOX === true], which Wave 1
    reads. *)
Definition executePreReconPhase (toolAvailability : gmap string bool)
           (pipelineTestingMode blackboxMode isBlackbox : bool)
  : PhaseOutcome :=
  match runPreReconWave1 errorSummary w agent order1 webUrl toolAvailability
          pipelineTestingMode isBlackbox with
  | WaveRejected t => PhaseRejected t
  | WavePending => PhasePending
  | WaveResolved wave1Results =>
      match runPreReconWave2 errorSummary w agent order2 webUrl
              toolAvailability pipelineTestingMode with
      | WaveRejected t => PhaseRejected t
      | WavePending => PhasePending
      | WaveResolved wave2Results =>
          let allResults :=
            ([ prop wave1Results "nmap";
               prop wave1Results "subfinder";
               prop wave1Results "whatweb";
               prop wave1Results "naabu";
               if blackboxMode then VScan blackbox_skipped
               else prop wave1Results "codeAnalysis" ]
             ++ (if truthy_value (prop wave2Results "schemathesis")
                 then [prop wave2Results "schemathesis"] else []))%list in
          match stitchPreReconOutputs allResults with
          | Rejected t => PhaseRejected t
          | Fulfilled preReconReport =>
              PhaseDone (phase_duration fs) preReconReport
          end
      end
  end.

End Stitch.

End Report.

(** ** [src/ai/claude-executor.js]: prompt names *)

Module PromptNames.

(** Whether [s] holds a line terminator, which [.] does not match; over
    the ASCII range these are the line feed and the carriage return. *)
Fixpoint has_line_terminator (s : string) : bool :=
  match s with
  | EmptyString => false
  | String c s' =>
      let n := Ascii.nat_of_ascii c in
      (n =? 10)%nat || (n =? 13)%nat || has_line_terminator s'
  end.

(** The group captured by [/^(.+)<suffix>$/] in [agentName], if it
    matches: the name ends with the suffix and what precedes it is not
    empty and stays on one line. *)
Definition capture (suffix agentName : string) : option string :=
  let n := String.length agentName in
  let k := String.length suffix in
  let head := String.substring 0 (n - k) agentName in
  if (k <? n)%nat
     && String.eqb (String.substring (n - k) k agentName) suffix
     && negb (has_line_terminator head)
  then Some head else None.

(** [agentNameToPromptName(agentName)] *)
Definition agentNameToPromptName (agentName : string) : string :=
  if String.eqb agentName "pre-recon" then "pre-recon-code"
  else if String.eqb agentName "report" then "report-executive"
  else if String.eqb agentName "recon" then "recon"
  else
    match capture "-vuln" agentName with
    | Some type => "vuln-" +:+ type
    | None =>
        match capture "-exploit" agentName with
        | Some type => "exploit-" +:+ type
        | None => agentName
        end
    end.

End PromptNames.

(** ** The OpenAI-compatible path of the LLM adapter ([query]) *)

Module LlmAdapter.

Import Executor.

(** What the request to the chat-completions endpoint comes to, streamed
    or not: an error thrown anywhere inside the [try] (the request fails,
    the status is not ok, the body cannot be read), or the text of the
    completion (the concatenated deltas, or [message.content || '']). *)
Inductive Completion :=
| CompletionFails (err : Error)
| CompletionText (content : string).

(** [query({ prompt, options })] when the provider is ['openai']: a single
    assistant turn is yielded in either case, and the generator returns. *)
Definition query_openai (c : Completion) : Stream :=
  {| stream_messages :=
       [MAssistant
          (CString
             match c with
             | CompletionFails err =>
                 "OpenAI adapter error: " +:+ err_message err
             | CompletionText content => content
             end)];
     stream_throws := None |}.

End LlmAdapter.

(** ** [shannon.mjs]: the command line *)

Module Cli.

(** The variables that the argument loop of the entry point fills. *)
Record Flags := {
  configPath : option string;
  pipelineTestingMode : bool;
  disableLoader : bool;
  blackboxMode : bool;
  skipMcpPhases : bool;
  relaxValidation : bool;
  nonFlagArgs : list string;
  developerCommand : option string
}.

Definition initial : Flags :=
  {| configPath := None; pipelineTestingMode := false;
     disableLoader := false; blackboxMode := false; skipMcpPhases := false;
     relaxValidation := false; nonFlagArgs := []; developerCommand := None |}.

Definition developerCommands : list string :=
  ["--run-phase"; "--run-all"; "--rollback-to"; "--rerun"; "--status";
   "--list-agents"; "--cleanup"].

(** The flags that are also accepted after a developer command. *)
Definition mode_flags : list string :=
  ["--pipeline-testing"; "--disable-loader"; "--blackbox";
   "--skip-mcp-phases"; "--relax-validation"].

(** [l.includes(x)] *)
Definition includes_arg (x : string) (l : list string) : bool :=
  bool_decide (x ∈ l).

(** How the argument loop ends: [process.exit(code)], or by running out
    of arguments or by [break]. *)
Inductive Parsed :=
| ParseExit (code : Z)
| ParseDone (f : Flags).

(** The branch of a developer command: the rest of the command line is
    filtered, searched for the mode flags, and what is left goes to
    [nonFlagArgs]. *)
Definition on_developer_command (command : string) (rest : list string)
           (f : Flags) : Flags :=
  let remainingArgs :=
    List.filter (λ arg, negb (String.prefix "--" arg)
                        || includes_arg arg mode_flags) rest in
  {| configPath := configPath f;
     pipelineTestingMode :=
       pipelineTestingMode f
       || includes_arg "--pipeline-testing" remainingArgs;
     disableLoader :=
       disableLoader f || includes_arg "--disable-loader" remainingArgs;
     blackboxMode :=
       blackboxMode f || includes_arg "--blackbox" remainingArgs;
     skipMcpPhases :=
       skipMcpPhases f || includes_arg "--skip-mcp-phases" remainingArgs;
     relaxValidation :=
       relaxValidation f || includes_arg "--relax-validation" remainingArgs;
     nonFlagArgs :=
       nonFlagArgs f
       ++ List.filter (λ arg, negb (includes_arg arg mode_flags))
            remainingArgs;
     developerCommand := Some command |}.

(** [for (let i = 0; i < args.length; i++) { ... }], from position [i] on;
    [args] is what is left of the command line at [i]. *)
Fixpoint parse (args : list string) (f : Flags) : Parsed :=
  match args with
  | [] => ParseDone f
  | arg :: rest =>
      if String.eqb arg "--config" then
        match rest with
        | path :: rest' =>
            parse rest'
              {| configPath := Some path;
                 pipelineTestingMode := pipelineTestingMode f;
                 disableLoader := disableLoader f;
                 blackboxMode := blackboxMode f;
                 skipMcpPhases := skipMcpPhases f;
                 relaxValidation := relaxValidation f;
                 nonFlagArgs := nonFlagArgs f;
                 developerCommand := developerCommand f |}
        | [] => ParseExit 1
        end
      else if String.eqb arg "--pipeline-testing" then
        parse rest
          {| configPath := configPath f; pipelineTestingMode := true;
             disableLoader := disableLoader f;
             blackboxMode := blackboxMode f;
             skipMcpPhases := skipMcpPhases f;
             relaxValidation := relaxValidation f;
             nonFlagArgs := nonFlagArgs f;
             developerCommand := developerCommand f |}
      else if String.eqb arg "--disable-loader" then
        parse rest
          {| configPath := configPath f;
             pipelineTestingMode := pipelineTestingMode f;
             disableLoader := true;
             blackboxMode := blackboxMode f;
             skipMcpPhases := skipMcpPhases f;
             relaxValidation := relaxValidation f;
             nonFlagArgs := nonFlagArgs f;
             developerCommand := developerCommand f |}
      else if String.eqb arg "--blackbox" then
        parse rest
          {| configPath := configPath f;
             pipelineTestingMode := pipelineTestingMode f;
             disableLoader := disableLoader f;
             blackboxMode := true;
             skipMcpPhases := skipMcpPhases f;
             relaxValidation := relaxValidation f;
             nonFlagArgs := nonFlagArgs f;
             developerCommand := developerCommand f |}
      else if String.eqb arg "--skip-mcp-phases" then
        parse rest
          {| configPath := configPath f;
             pipelineTestingMode := pipelineTestingMode f;
             disableLoader := disableLoader f;
             blackboxMode := blackboxMode f;
             skipMcpPhases := true;
             relaxValidation := relaxValidation f;
             nonFlagArgs := nonFlagArgs f;
             developerCommand := developerCommand f |}
      else if String.eqb arg "--relax-validation" then
        parse rest
          {| configPath := configPath f;
             pipelineTestingMode := pipelineTestingMode f;
             disableLoader := disableLoader f;
             blackboxMode := blackboxMode f;
             skipMcpPhases := skipMcpPhases f;
             relaxValidation := true;
             nonFlagArgs := nonFlagArgs f;
             developerCommand := developerCommand f |}
      else if includes_arg arg developerCommands then
        ParseDone (on_developer_command arg rest f)
      else if negb (String.prefix "-" arg) then
        parse rest
          {| configPath := configPath f;
             pipelineTestingMode := pipelineTestingMode f;
             disableLoader := disableLoader f;
             blackboxMode := blackboxMode f;
             skipMcpPhases := skipMcpPhases f;
             relaxValidation := relaxValidation f;
             nonFlagArgs := nonFlagArgs f ++ [arg];
             developerCommand := developerCommand f |}
      else parse rest f
  end.

(** [process.argv.slice(2)], without a leading script name. *)
Definition script_args (argv : list string) : list string :=
  match argv with
  | first :: rest =>
      if truthy first && includes "shannon.mjs" first then rest else argv
  | [] => argv
  end.

(** What the entry point does with a command line, up to the validation
    of the target URL. *)
Inductive Dispatch :=
| Exits (code : Z)
| ShowsHelp                                    (* showHelp(); exit(0) *)
| RunsDeveloperCommand (command : string) (f : Flags)
                                               (* handleDeveloperCommand *)
| ValidatesInputs (f : Flags).                 (* validateWebUrl(webUrl) ... *)

Definition dispatch (argv : list string) : Dispatch :=
  let args := script_args argv in
  match parse args initial with
  | ParseExit code => Exits code
  | ParseDone f =>
      if includes_arg "--help" args || includes_arg "-h" args
         || includes_arg "help" args
      then ShowsHelp
      else
        match developerCommand f with
        | Some command => RunsDeveloperCommand command f
        | None =>
            if (length (nonFlagArgs f) =? 0)%nat then Exits 1
            else if negb (blackboxMode f)
                    && (length (nonFlagArgs f) <? 2)%nat
            then Exits 1
            else ValidatesInputs f
        end
  end.

End Cli.

(** ** Further vocabulary *)

Module Shapes.

Import Wave Executor Props.

(** How an attempt ends, as far as the workspace is concerned. *)
Inductive Ending :=
| Unfinished      (* neither rolled back nor committed *)
| RolledBack
| Committed.

Definition block (attempt : nat) (e : Ending) : list Kind :=
  KCheckpoint attempt :: KExecute attempt
    :: match e with
       | Unfinished => []
       | RolledBack => [KRollback]
       | Committed => [KCommit]
       end.

(** The trace of consecutive attempts, the first numbered [attempt]. *)
Fixpoint blocks (attempt : nat) (es : list Ending) : list Kind :=
  match es with
  | [] => []
  | e :: es' => (block attempt e ++ blocks (S attempt) es')%list
  end.

(** A message that the loop of [runClaudePrompt] passes over: not the
    result message, and not an assistant turn announcing the exhausted
    session. *)
Definition passes (m : Message) : bool :=
  match m with
  | MResult _ _ => false
  | MAssistant c =>
      negb (truthy (render c)
            && includes "session limit reached" (toLowerCase (render c)))
  | _ => true
  end.

(** The texts of the assistant turns of a list of messages. *)
Definition assistant_texts (ms : list Message) : list string :=
  omap (λ m, match m with MAssistant c => Some (render c) | _ => None end) ms.

(** The errors that the orchestrator makes up itself. *)
Definition own_errors (description : string) : list Thrown :=
  [ ThrowUndefined;
    ThrowError (mkError "Output validation failed");
    ThrowError (mkError "API Error: terminated with validation failure");
    ThrowError (validation_exhausted description) ].

(** The run never reaches the calls that save a text-only result as the
    code-analysis deliverable: the provider is not the text-only one, or
    the agent is not pre-recon. *)
Definition nothing_to_save (cfg : Config) (agentName : option string)
  : Prop :=
  isTextOnly cfg = false ∨ agentName ≠ Some "pre-recon".




End Shapes.

(** ** Further examples *)

Module Scenarios.

Import Wave Executor Report LlmAdapter Examples.

(** The deliverable of the code analysis is there and the report can be
    written. *)
Definition disk : Files :=
  {| read_code_analysis := inr "# Code analysis";
     write_report := None;
     now := "2025-01-01T00:00:00.000Z";
     phase_duration := 5000 |}.

(** Nothing can be read or written. *)
Definition locked_disk : Files :=
  {| read_code_analysis := inl (mkError "ENOENT: no such file");
     write_report := Some (mkError "EACCES: permission denied");
     now := "2025-01-01T00:00:00.000Z";
     phase_duration := 5000 |}.


(** The stream goes on after the result message, and then breaks. *)
Definition talkative : World :=
  {| stream := λ _,
       {| stream_messages :=
            [MSystemInit; MAssistant (CString "Working on it");
             MResult (Some "done") (Some (1 # 4));
             MAssistant (CString "Session limit reached");
             MResult (Some "again") (Some (1 # 2))];
          stream_throws := Some (mkError "socket hang up") |};
     timer_duration := λ _, 60000%Z;
     AGENT_VALIDATORS := ∅;
     deliverable_exists := λ _, false |}.

(** The endpoint of the OpenAI-compatible provider cannot be reached. *)
Definition unreachable : World :=
  {| stream := λ _, query_openai (CompletionFails (mkError "fetch failed"));
     timer_duration := λ _, 800%Z;
     AGENT_VALIDATORS := list_to_map [("recon", λ _, Some false)];
     deliverable_exists := λ _, false |}.

End Scenarios.

(* ===================================================================== *)
(** * Part II: properties                                                *)
(* ===================================================================== *)

Import Wave Executor Signals Props Examples.

(** ** [Promise.all] delivers values by slot, whatever the settling order *)

Section PromiseAll.

Context {A : Type}.

Lemma mapM_id_Some (vs : list A) : mapM id (Some <$> vs) = Some vs.
Proof.
  apply mapM_Some. induction vs as [|v vs IH]; constructor; done.
Qed.

Lemma all_settle_fulfilled (vs : list A) (order : list nat) :
  ∀ slots : list (option A),
    length slots = length vs →
    (∀ i v, slots !! i = Some (Some v) → vs !! i = Some v) →
    (∀ i, slots !! i = Some None → i ∈ order) →
    all_settle (Fulfilled <$> vs) slots order = AllFulfilled vs.
Proof.
  induction order as [|i rest IH]; intros slots Hlen Hval Hpend; simpl.
  - assert (slots = Some <$> vs) as ->; [|by rewrite mapM_id_Some].
    apply list_eq. intros i. rewrite list_lookup_fmap.
    destruct (slots !! i) as [[v|]|] eqn:Hi.
    + by rewrite (Hval _ _ Hi).
    + apply Hpend in Hi. by apply not_elem_of_nil in Hi.
    + apply lookup_ge_None in Hi. rewrite Hlen in Hi.
      apply lookup_ge_None in Hi. by rewrite Hi.
  - rewrite list_lookup_fmap. destruct (vs !! i) as [v|] eqn:Hi; simpl.
    + apply IH.
      * by rewrite length_insert.
      * intros j v' Hj. destruct (decide (i = j)) as [->|Hne].
        -- rewrite list_lookup_insert_eq in Hj; [congruence|].
           rewrite Hlen. by eapply lookup_lt_Some.
        -- rewrite list_lookup_insert_ne in Hj by done. by apply Hval.
      * intros j Hj. destruct (decide (i = j)) as [->|Hne].
        -- rewrite list_lookup_insert_eq in Hj; [congruence|].
           rewrite Hlen. by eapply lookup_lt_Some.
        -- rewrite list_lookup_insert_ne in Hj by done.
           apply Hpend in Hj. apply elem_of_cons in Hj as [->|Hj]; done.
    + apply IH; [done..|]. intros j Hj.
      assert (i ≠ j).
      { intros ->. apply lookup_ge_None in Hi.
        apply lookup_lt_Some in Hj. lia. }
      apply Hpend in Hj. apply elem_of_cons in Hj as [->|Hj]; done.
Qed.

(** When every input promise fulfils, [Promise.all] fulfils with the
    values in the order of the input array, in whatever order they
    settled. *)
Lemma promise_all_fulfilled (vs : list A) (order : list nat) :
  (∀ i : nat, i < length vs → i ∈ order) →
  promise_all (Fulfilled <$> vs) order = AllFulfilled vs.
Proof.
  intros Hall. unfold promise_all. apply all_settle_fulfilled.
  - by rewrite length_replicate, length_fmap.
  - intros i v Hi. apply lookup_replicate in Hi as [? _]. done.
  - intros i Hi. apply lookup_replicate in Hi as [_ Hi].
    apply Hall. by rewrite length_fmap in Hi.
Qed.

End PromiseAll.

(** ** Terminal scans *)

Section Scans.

Variable errorSummary : Error → string.
Variable w : Tools.World.
Variable webUrl : string.

(** Every result of [runTerminalScan] carries the name it was asked for. *)
Lemma runTerminalScan_tool (t : string) :
  tool (runTerminalScan errorSummary w t webUrl) = t.
Proof.
  unfold runTerminalScan.
  repeat match goal with
         | |- context [String.eqb t ?s] =>
             destruct (String.eqb_spec t s) as [->|_];
             [unfold scan_host, scan_url; repeat case_match; reflexivity|]
         end.
  reflexivity.
Qed.



End Scans.

(** ** The additional-scanning wave *)

Section Wave2.

Variable errorSummary : Error → string.
Variable w : Tools.World.
Variable agent : Settled AttemptResult.
Variable order : list nat.
Variable webUrl : string.

Lemma start_scans (ts : list string) :
  map (start errorSummary w agent webUrl) (OpScan <$> ts)
  = Fulfilled <$>
      map (λ t, VScan (runTerminalScan errorSummary w t webUrl)) ts.
Proof. induction ts as [|t ts IH]; [done|]. simpl. by f_equal. Qed.

Lemma wave2_operations_filter (toolAvailability : gmap string bool) :
  wave2_operations toolAvailability
  = OpScan <$> List.filter (available toolAvailability) wave2_tools.
Proof.
  unfold wave2_operations, wave2_tools. simpl.
  destruct (available toolAvailability "schemathesis"),
           (available toolAvailability "httpx"),
           (available toolAvailability "nuclei"),
           (available toolAvailability "sqlmap"); reflexivity.
Qed.

(** The promise of [Promise.all] in Wave 2 always fulfils, with one scan
    result per available tool, in the order the scans were pushed. *)
Lemma wave2_results (toolAvailability : gmap string bool) :
  all_settled (wave2_operations toolAvailability) order →
  promise_all
    (map (start errorSummary w agent webUrl) (wave2_operations toolAvailability))
    order
  = AllFulfilled
      (map (λ t, VScan (runTerminalScan errorSummary w t webUrl))
           (List.filter (available toolAvailability) wave2_tools)).
Proof.
  intros Hall. unfold all_settled in Hall.
  rewrite wave2_operations_filter in *. rewrite start_scans.
  apply promise_all_fulfilled. intros i Hi. apply Hall.
  by rewrite length_fmap, length_map in *.
Qed.

End Wave2.

Section Wave2Attribution.

Variable errorSummary : Error → string.
Variable w : Tools.World.
Variable agent : Settled AttemptResult.
Variable order : list nat.
Variable webUrl : string.

Ltac wave2_cases ta :=
  destruct (available ta "schemathesis") eqn:Hschemathesis,
           (available ta "httpx") eqn:Hhttpx,
           (available ta "nuclei") eqn:Hnuclei,
           (available ta "sqlmap") eqn:Hsqlmap.

(** Outside pipeline-testing mode and with at least one optional tool
    available, the response binds all four names, each to the value that
    belongs to it. *)
Lemma wave2_bindings (toolAvailability : gmap string bool) :
  (∃ t, t ∈ wave2_tools ∧ available toolAvailability t = true) →
  all_settled (wave2_operations toolAvailability) order →
  attributed errorSummary w webUrl toolAvailability
    (runPreReconWave2 errorSummary w agent order webUrl toolAvailability false).
Proof.
  intros (t0 & Ht0 & Hav) Hall.
  unfold attributed, runPreReconWave2. cbv zeta.
  rewrite (wave2_results _ _ _ _ _ _ Hall).
  rewrite wave2_operations_filter. unfold assign, wave2_tools in *.
  simpl List.filter.
  wave2_cases toolAvailability; simpl;
    try (exfalso; repeat (apply elem_of_cons in Ht0 as [->|Ht0]);
         [congruence..|by apply not_elem_of_nil in Ht0]);
    (eexists; split; [reflexivity|]);
    intros t Ht; repeat (apply elem_of_cons in Ht as [->|Ht]);
    try (by apply not_elem_of_nil in Ht);
    (eexists; split; [by simplify_map_eq|]);
    (split; [first [apply runTerminalScan_tool|reflexivity]|]);
    (split; intros; first [congruence|done]).
Qed.

(** C1 (amended).  Outside pipeline-testing mode, for every non-empty set
    of optional operations marked available and every order in which the
    scheduled scans settle, the additional-scanning wave resolves with a
    map in which each available operation's name is bound to that
    operation's own result and each unavailable operation's name to the
    skipped record of that name. *)
Theorem wave2_attribution (toolAvailability : gmap string bool) :
  (∃ t, t ∈ wave2_tools ∧ available toolAvailability t = true) →
  all_settled (wave2_operations toolAvailability) order →
  attributed errorSummary w webUrl toolAvailability
    (runPreReconWave2 errorSummary w agent order webUrl toolAvailability false).
Proof. apply wave2_bindings. Qed.

(** C10.  In pipeline-testing mode, or when every Wave-2 tool is
    unavailable, the additional-scanning wave resolves with a map whose only
    key is ['schemathesis'], bound to a skipped record, so that ['httpx'],
    ['nuclei'] and ['sqlmap'] are absent; otherwise, when at least one
    Wave-2 tool is available, the map has exactly the four keys. *)
Theorem wave2_keys (toolAvailability : gmap string bool)
        (pipelineTestingMode : bool) :
  (pipelineTestingMode = true
   ∨ (∀ t, t ∈ wave2_tools → available toolAvailability t = false) →
   ∃ response r,
     runPreReconWave2 errorSummary w agent order webUrl toolAvailability
       pipelineTestingMode = WaveResolved response
     ∧ dom response = {["schemathesis"]}
     ∧ response !! "schemathesis" = Some (VScan r)
     ∧ Tools.status r = "skipped"
     ∧ response !! "httpx" = None ∧ response !! "nuclei" = None
     ∧ response !! "sqlmap" = None)
  ∧ (pipelineTestingMode = false →
     (∃ t, t ∈ wave2_tools ∧ available toolAvailability t = true) →
     all_settled (wave2_operations toolAvailability) order →
     ∃ response,
       runPreReconWave2 errorSummary w agent order webUrl toolAvailability
         pipelineTestingMode = WaveResolved response
       ∧ dom response = list_to_set wave2_tools).
Proof.
  split.
  - intros [->|Hnone].
    + do 2 eexists. split; [reflexivity|].
      rewrite dom_singleton_L. by simplify_map_eq.
    + unfold runPreReconWave2. cbv zeta.
      rewrite wave2_operations_filter. unfold wave2_tools in *.
      simpl List.filter.
      rewrite !Hnone by (repeat constructor). simpl.
      destruct pipelineTestingMode; do 2 eexists; (split; [reflexivity|]);
        rewrite dom_singleton_L; by simplify_map_eq.
  - intros -> (t0 & Ht0 & Hav) Hall.
    unfold runPreReconWave2. cbv zeta.
    rewrite (wave2_results _ _ _ _ _ _ Hall).
    rewrite wave2_operations_filter. unfold assign, wave2_tools in *.
    simpl List.filter.
    wave2_cases toolAvailability; simpl;
      try (exfalso; repeat (apply elem_of_cons in Ht0 as [->|Ht0]);
           [congruence..|by apply not_elem_of_nil in Ht0]);
      (eexists; split; [reflexivity|]);
      rewrite !dom_insert_L, dom_empty_L; set_solver.
Qed.

End Wave2Attribution.

Lemma wave2_attribution_witness :
  (∃ t, t ∈ wave2_tools ∧ available some_tools t = true)
  ∧ all_settled (wave2_operations some_tools)
      [1; 0]
  ∧ attributed summary calm "https://example.com" some_tools
      (runPreReconWave2 summary calm (Rejected ThrowUndefined) [1; 0]
         "https://example.com" some_tools false).
Proof.
  assert (∃ t, t ∈ wave2_tools ∧ available some_tools t = true) as Hsome.
  { exists "httpx". split; [|reflexivity]. unfold wave2_tools.
    apply elem_of_cons; right. apply elem_of_cons; by left. }
  assert (all_settled (wave2_operations some_tools)
            [1; 0]) as Hall.
  { intros i Hi. change (i < 2) in Hi.
    destruct i as [|[|i]]; [| |lia].
    - apply elem_of_cons; right. apply elem_of_cons; by left.
    - apply elem_of_cons; by left. }
  split; [exact Hsome|]. split; [exact Hall|].
  exact (wave2_attribution summary calm (Rejected ThrowUndefined) [1; 0]
           "https://example.com" some_tools Hsome Hall).
Defined.

(** In pipeline-testing mode the wave answers before looking at the
    availability map: an available [httpx] gets no entry at all. *)
Lemma wave2_pipeline_testing_unattributed :
  (∃ t, t ∈ wave2_tools ∧ available all_tools t = true)
  ∧ all_settled (wave2_operations all_tools)
      [0; 1; 2; 3]
  ∧ ¬ attributed summary calm "https://example.com" all_tools
        (runPreReconWave2 summary calm (Rejected ThrowUndefined) [0; 1; 2; 3]
           "https://example.com" all_tools true).
Proof.
  split; [|split].
  - exists "httpx". split; [|reflexivity]. unfold wave2_tools.
    apply elem_of_cons; right. apply elem_of_cons; by left.
  - intros i Hi. change (i < 4) in Hi.
    destruct i as [|[|[|[|i]]]]; [set_solver..|lia].
  - intros (response & Hres & Hattr).
    destruct (Hattr "httpx") as (r & Hr & _).
    { unfold wave2_tools. set_solver. }
    simpl in Hres. injection Hres as <-. by simplify_map_eq.
Qed.

Lemma wave2_keys_witness :
  (∃ response,
     runPreReconWave2 summary calm (Rejected ThrowUndefined) [1; 0]
       "https://example.com" some_tools false = WaveResolved response
     ∧ dom response = list_to_set wave2_tools)
  ∧ (∃ response r,
       runPreReconWave2 summary calm (Rejected ThrowUndefined) [1; 0]
         "https://example.com" no_wave2_tools false = WaveResolved response
       ∧ dom response = {["schemathesis"]}
       ∧ response !! "schemathesis" = Some (VScan r)
       ∧ Tools.status r = "skipped"
       ∧ response !! "httpx" = None ∧ response !! "nuclei" = None
       ∧ response !! "sqlmap" = None).
Proof.
  split.
  - apply (proj2 (wave2_keys summary calm (Rejected ThrowUndefined) [1; 0]
                    "https://example.com" some_tools false)).
    + reflexivity.
    + exists "httpx". split; [|reflexivity]. unfold wave2_tools.
      apply elem_of_cons; right. apply elem_of_cons; by left.
    + intros i Hi. change (i < 2) in Hi.
      destruct i as [|[|i]]; [| |lia].
      * apply elem_of_cons; right. apply elem_of_cons; by left.
      * apply elem_of_cons; by left.
  - apply (proj1 (wave2_keys summary calm (Rejected ThrowUndefined) [1; 0]
                    "https://example.com" no_wave2_tools false)).
    right. intros t Ht. unfold wave2_tools in Ht.
    repeat (apply elem_of_cons in Ht as [->|Ht]); try reflexivity.
    by apply not_elem_of_nil in Ht.
Defined.

(** ** Failure isolation in both waves *)

Section Isolation.

Variable errorSummary : Error → string.
Variable w : Tools.World.
Variable agent : Settled AttemptResult.
Variable order : list nat.
Variable webUrl : string.


(** Outside pipeline-testing mode, when the code-analysis agent (if it is
    scheduled) fulfils, Wave 1 resolves and binds each scan to its name. *)
Lemma wave1_bindings (toolAvailability : gmap string bool)
      (isBlackbox : bool) :
  all_settled (wave1_operations toolAvailability isBlackbox) order →
  (isBlackbox = false → ∃ r, agent = Fulfilled r) →
  ∃ response,
    runPreReconWave1 errorSummary w agent order webUrl toolAvailability
      false isBlackbox = WaveResolved response
    ∧ (∀ t, OpScan t ∈ wave1_operations toolAvailability isBlackbox →
         response !! t = Some (VScan (runTerminalScan errorSummary w t webUrl)))
    ∧ (available toolAvailability "naabu" = false →
         response !! "naabu" = Some (VScan (not_available "naabu"))).
Proof.
  intros Hall Hagent. unfold runPreReconWave1. cbv zeta.
  unfold wave1_operations, all_settled in *.
  destruct isBlackbox.
  - destruct (available toolAvailability "naabu") eqn:Hnaabu; simpl in *.
    + rewrite (promise_all_fulfilled
                 [VScan (runTerminalScan errorSummary w "nmap" webUrl);
                  VScan (runTerminalScan errorSummary w "subfinder" webUrl);
                  VScan (runTerminalScan errorSummary w "whatweb" webUrl);
                  VScan (runTerminalScan errorSummary w "naabu" webUrl)])
        by exact Hall.
      eexists. split; [reflexivity|]. split; [|done].
      intros t Ht. repeat (apply elem_of_cons in Ht as [Ht|Ht]);
        try (by apply not_elem_of_nil in Ht); try discriminate;
        injection Ht as ->; by simplify_map_eq.
    + rewrite (promise_all_fulfilled
                 [VScan (runTerminalScan errorSummary w "nmap" webUrl);
                  VScan (runTerminalScan errorSummary w "subfinder" webUrl);
                  VScan (runTerminalScan errorSummary w "whatweb" webUrl);
                  VScan (not_available "naabu")])
        by exact Hall.
      eexists. split; [reflexivity|]. split; [|by simplify_map_eq].
      intros t Ht. repeat (apply elem_of_cons in Ht as [Ht|Ht]);
        try (by apply not_elem_of_nil in Ht); try discriminate;
        injection Ht as ->; by simplify_map_eq.
  - destruct Hagent as [r ->]; [done|].
    destruct (available toolAvailability "naabu") eqn:Hnaabu; simpl in *.
    + rewrite (promise_all_fulfilled
                 [VScan (runTerminalScan errorSummary w "nmap" webUrl);
                  VScan (runTerminalScan errorSummary w "subfinder" webUrl);
                  VScan (runTerminalScan errorSummary w "whatweb" webUrl);
                  VScan (runTerminalScan errorSummary w "naabu" webUrl);
                  VAgent r])
        by exact Hall.
      eexists. split; [reflexivity|]. split; [|done].
      intros t Ht. repeat (apply elem_of_cons in Ht as [Ht|Ht]);
        try (by apply not_elem_of_nil in Ht); try discriminate;
        injection Ht as ->; by simplify_map_eq.
    + rewrite (promise_all_fulfilled
                 [VScan (runTerminalScan errorSummary w "nmap" webUrl);
                  VScan (runTerminalScan errorSummary w "subfinder" webUrl);
                  VScan (runTerminalScan errorSummary w "whatweb" webUrl);
                  VScan (not_available "naabu"); VAgent r])
        by exact Hall.
      eexists. split; [reflexivity|]. split; [|by simplify_map_eq].
      intros t Ht. repeat (apply elem_of_cons in Ht as [Ht|Ht]);
        try (by apply not_elem_of_nil in Ht); try discriminate;
        injection Ht as ->; by simplify_map_eq.
Qed.

End Isolation.

Section IsolationTheorem.

Variable errorSummary : Error → string.
Variable w : Tools.World.
Variable agent : Settled AttemptResult.
Variable order : list nat.
Variable webUrl : string.



End IsolationTheorem.



(** ** The message loop of [runClaudePrompt] *)

Section MessageLoop.

Variable audit : bool.
Variable description : string.

Lemma only_logs_app (evs evs' : list Event) :
  only_logs evs → only_logs evs' → only_logs (evs ++ evs').
Proof. apply Forall_app_2. Qed.

Lemma log_event_same (kind : string) (l : Loop) :
  same_costs l (log_event audit kind l)
  ∧ (only_logs (l_log l) → only_logs (l_log (log_event audit kind l))).
Proof.
  unfold log_event, same_costs. destruct audit; simpl; [|done].
  split; [done|]. intros H. apply only_logs_app; [done|].
  repeat constructor. by eexists.
Qed.

Lemma on_message_costs (l : Loop) (m : Message) :
  only_logs (l_log l) →
  match on_message audit description l m with
  | Next l' => same_costs l l' ∧ only_logs (l_log l')
  | Break l' => cost_booked l l' ∧ only_logs (l_log l')
  | Throws _ l' => same_costs l l' ∧ only_logs (l_log l')
  end.
Proof.
  intros Hlog. destruct m; simpl; try done.
  - set (l1 := {| l_result := l_result l; l_messages := l_messages l;
                  l_apiErrorDetected := l_apiErrorDetected l;
                  l_turnCount := S (l_turnCount l);
                  l_totalCost := l_totalCost l;
                  l_partialCost := l_partialCost l;
                  l_costs := l_costs l; l_log := l_log l |}).
    destruct (log_event_same "llm_response" l1) as [(H1 & H2 & H3) Hl].
    specialize (Hl Hlog).
    destruct (truthy (render c));
      [destruct (includes "session limit reached" _);
       [|destruct (includes "api error" _ || includes "terminated" _)]|];
      unfold same_costs; simpl; rewrite ?H1, ?H2, ?H3; done.
  - destruct (log_event_same "tool_start" l) as [H Hl]. split; auto.
  - destruct (log_event_same "tool_end" l) as [H Hl]. split; auto.
Qed.

Lemma consume_costs (ends : option Error) (ms : list Message) :
  ∀ l, only_logs (l_log l) →
    match consume audit description ends ms l with
    | inl l' => (same_costs l l' ∨ cost_booked l l') ∧ only_logs (l_log l')
    | inr (_, l') => same_costs l l' ∧ only_logs (l_log l')
    end.
Proof.
  induction ms as [|m ms IH]; intros l Hlog; simpl.
  - destruct ends; (split; [|done]); [|left]; done.
  - pose proof (on_message_costs l m Hlog) as Hm.
    destruct (on_message audit description l m) as [l1|l1|e l1].
    + destruct Hm as [(H1 & H2 & H3) Hl1]. specialize (IH l1 Hl1).
      destruct (consume audit description ends ms l1) as [l'|[e l']].
      * destruct IH as [[(H1' & H2' & H3')|[H1' H2']] Hl']; (split; [|done]).
        -- left. unfold same_costs. by rewrite H1', H2', H3'.
        -- right. unfold cost_booked. by rewrite H1', H2', H3.
      * destruct IH as [(H1' & H2' & H3') Hl']. split; [|done].
        unfold same_costs. by rewrite H1', H2', H3'.
    + destruct Hm as [Hm Hl1]. split; [by right|done].
    + done.
Qed.

End MessageLoop.

(** ** One execution and one iteration of the retry loop *)

Lemma sumQ_app (l1 l2 : list Q) : (sumQ (l1 ++ l2) == sumQ l1 + sumQ l2)%Q.
Proof.
  induction l1 as [|q l1 IH]; simpl.
  - ring.
  - rewrite IH. ring.
Qed.

Lemma num_or_self (q : Q) : (num_or (Some q) 0 == q)%Q.
Proof.
  unfold num_or. destruct (Qeq_bool q 0) eqn:Hq; [|reflexivity].
  apply Qeq_bool_iff in Hq. by rewrite Hq.
Qed.

Lemma num_or_same (q : Q) : (num_or (Some q) (num_or (Some q) 0) == q)%Q.
Proof.
  unfold num_or at 1. destruct (Qeq_bool q 0) eqn:Hq; [|reflexivity].
  apply num_or_self.
Qed.

Lemma only_logs_kinds (evs : list Event) :
  only_logs evs →
  kinds evs = [] ∧ executed evs = [] ∧ reported_costs evs = [].
Proof.
  induction 1 as [|e evs [kind ->] _ (IH1 & IH2 & IH3)]; [done|].
  repeat split; [exact IH1|exact IH2|exact IH3].
Qed.

Section Execution.

Variable isRetryableError : Error → bool.
Variable getRetryDelay : Error → nat → Z.
Variable cfg : Config.
Variable w : World.

(** What one call of [runClaudePrompt] does to the cost records: the cost
    it returns is the cost it added to [costResults.total]; a successful
    return repeats it as [partialCost]; a failed one reports zero. *)
Lemma runClaudePrompt_costs (description : string) (audit : bool)
      (attempt : nat) (costs : CostResults) :
  let run := runClaudePrompt isRetryableError w description audit attempt
               costs in
  (cr_total run.1.2 == cr_total costs + ar_cost run.1.1)%Q
  ∧ only_logs run.2
  ∧ (ar_success run.1.1 = true → ar_partialCost run.1.1 = Some (ar_cost run.1.1))
  ∧ (ar_success run.1.1 = false → ar_cost run.1.1 = 0%Q).
Proof.
  unfold runClaudePrompt.
  set (init := {| l_result := None; l_messages := [];
                  l_apiErrorDetected := false; l_turnCount := 0;
                  l_totalCost := 0; l_partialCost := 0;
                  l_costs := costs; l_log := [] |}).
  pose proof (consume_costs audit description
                (stream_throws (stream w attempt))
                (stream_messages (stream w attempt)) init) as H.
  specialize (H (Forall_nil_2 _)).
  destruct (consume audit description _ _ init) as [l|[e l]]; simpl.
  - destruct H as [[(H1 & H2 & H3)|[H1 H2]] Hl].
    + rewrite H1, H2, H3. simpl. split; [ring|]. by repeat split.
    + rewrite H1, H2. simpl. split; [ring|]. by repeat split.
  - destruct H as [(H1 & H2 & H3) Hl].
    destruct (log_event_same audit "error" l) as [(H1' & H2' & H3') Hl'].
    rewrite H3', H2', H3, H2. simpl. split; [ring|].
    split; [by apply Hl'|]. by split.
Qed.

Lemma costResults_emit (evs : list Event) (st : State) :
  costResults (emit evs st) = costResults st.
Proof. reflexivity. Qed.

End Execution.

Section Iteration.

Variable isRetryableError : Error → bool.
Variable getRetryDelay : Error → nat → Z.
Variable cfg : Config.
Variable w : World.
Variables (prompt context description : string).
Variable agentName : option string.
Variable audit : bool.

Local Abbreviation iteration :=
  (iteration isRetryableError getRetryDelay cfg w prompt context description
     agentName audit).
Local Abbreviation attempts :=
  (attempts isRetryableError getRetryDelay cfg w prompt context description
     agentName audit).
Local Abbreviation exhausted := (validation_exhausted description).

Local Arguments num_or : simpl never.

Ltac books Hlog :=
  destruct (only_logs_kinds _ Hlog) as (Hk & He & Hr);
  unfold accounted, kinds, executed, reported_costs in *; simpl;
  rewrite ?omap_app; simpl; rewrite ?Hk, ?He, ?Hr; simpl;
  rewrite ?app_nil_r, <- ?app_assoc; simpl.

Ltac sums :=
  intros _; rewrite ?sumQ_app; simpl;
  rewrite ?num_or_same, ?num_or_self; ring.

(** Every way an iteration can end, with what it did on the way. *)
Lemma iteration_spec (attempt : nat) (st : State) :
  let r := (runClaudePrompt isRetryableError w description audit attempt
              (costResults st)).1.1 in
  let valid := validateAgentOutput cfg w r agentName attempt in
  let before := kinds (trace st) in
  match iteration attempt st with
  | Continue st' =>
      accounted audit r st st'
      ∧ ((ar_success r = false
          ∧ kinds (trace st')
            = (before ++ [KCheckpoint attempt; KExecute attempt])%list
          ∧ lastError st' = lastError st)
         ∨ (ar_success r = true ∧ valid = false
            ∧ kinds (trace st')
              = (before ++ [KCheckpoint attempt; KExecute attempt;
                            KRollback])%list
            ∧ (attempt < maxRetries
               ∨ lastError st' = ThrowError exhausted)))
  | Done (Returned r') st' =>
      accounted audit r st st'
      ∧ r' = r ∧ ar_success r = true ∧ valid = true
      ∧ kinds (trace st')
        = (before ++ [KCheckpoint attempt; KExecute attempt; KCommit])%list
  | Done (Threw t) st' =>
      accounted audit r st st'
      ∧ ar_success r = true ∧ valid = false ∧ ¬ attempt < maxRetries
      ∧ t = ThrowError exhausted
      ∧ kinds (trace st')
        = (before ++ [KCheckpoint attempt; KExecute attempt; KRollback])%list
  end.
Proof.
  intros r valid before. subst r valid before.
  unfold Executor.iteration, on_catch.
  destruct audit; rewrite ?costResults_emit;
    match goal with
    | |- context [runClaudePrompt _ _ _ ?a _ _] =>
        pose proof (runClaudePrompt_costs isRetryableError w description a
                      attempt (costResults st)) as Hrun;
        destruct (runClaudePrompt isRetryableError w description a attempt
                    (costResults st)) as [[r costs] logged]
    end;
    simpl in Hrun; destruct Hrun as (Hcost & Hlog & Hpartial & Hfailed);
    simpl fst; simpl snd;
    (destruct (ar_success r) eqn:Hsuccess;
     [rewrite ?(Hpartial eq_refl);
      destruct (validateAgentOutput cfg w r agentName attempt) eqn:Hvalid;
      [|destruct (attempt <? maxRetries)%nat eqn:Hlt;
        [|destruct (isRetryableError exhausted) eqn:Hretry]]
     |]).
  all: destruct (isTextOnly cfg && bool_decide (agentName = Some "pre-recon")
                 && truthy (default "" (ar_result r))
                 && negb (deliverable_exists w attempt)).
  all: try destruct (ar_apiErrorDetected r).
  all: books Hlog.
  all: first [apply Nat.ltb_lt in Hlt|apply Nat.ltb_ge in Hlt|idtac].
  all: repeat match goal with
         | |- _ ∧ _ => split
         | |- true = false ∧ _ ∨ _ => right
         | |- false = false ∧ _ ∨ _ => left
         | |- _ < _ ∨ _ => first [left; assumption|right; reflexivity]
         | |- ¬ _ => unfold maxRetries in *; lia
         end.
  all: try done.
  all: try rewrite (Hfailed eq_refl).
  all: sums.
Qed.

End Iteration.

(** ** The retry loop *)

Section RetryLoop.

Variable isRetryableError : Error → bool.
Variable getRetryDelay : Error → nat → Z.
Variable cfg : Config.
Variable w : World.
Variables (prompt context description : string).
Variable agentName : option string.
Variable audit : bool.

Local Abbreviation iteration :=
  (iteration isRetryableError getRetryDelay cfg w prompt context description
     agentName audit).
Local Abbreviation attempts :=
  (attempts isRetryableError getRetryDelay cfg w prompt context description
     agentName audit).
Local Abbreviation exhausted := (validation_exhausted description).

(** The books are kept over any number of iterations. *)
Lemma attempts_accounted (remaining : nat) :
  ∀ (attempt : nat) (st : State),
    let st' := (attempts remaining attempt st).2 in
    ∃ rs : list AttemptResult,
      executed (trace st') = (executed (trace st) ++ rs)%list
      ∧ (cr_total (costResults st')
         == cr_total (costResults st) + sumQ (ar_cost <$> rs))%Q
      ∧ (audit = true →
         (sumQ (reported_costs (trace st'))
          == sumQ (reported_costs (trace st)) + sumQ (ar_cost <$> rs))%Q).
Proof.
  induction remaining as [|remaining IH]; intros attempt st; simpl.
  - exists []. rewrite app_nil_r.
    change (sumQ (ar_cost <$> [])) with 0%Q.
    split; [done|]. split; [ring|]. intros _. ring.
  - pose proof (iteration_spec isRetryableError getRetryDelay cfg w prompt
                  context description agentName audit attempt st) as Hit.
    simpl in Hit.
    set (r := (runClaudePrompt isRetryableError w description audit attempt
                 (costResults st)).1.1) in *.
    assert (∀ st1, accounted audit r st st1 →
              ∃ rs, executed (trace st1) = (executed (trace st) ++ rs)%list
                ∧ (cr_total (costResults st1)
                   == cr_total (costResults st) + sumQ (ar_cost <$> rs))%Q
                ∧ (audit = true →
                   (sumQ (reported_costs (trace st1))
                    == sumQ (reported_costs (trace st))
                       + sumQ (ar_cost <$> rs))%Q)) as Hone.
    { intros st1 (Hc & He & Hr). exists [r]. split; [done|].
      change (sumQ (ar_cost <$> [r])) with (ar_cost r + 0)%Q.
      split; [rewrite Hc; ring|]. intros Ha. rewrite (Hr Ha). ring. }
    destruct (iteration attempt st) as [st1|o st1].
    + destruct Hit as [Hacc _]. destruct Hacc as (Hc & He & Hr).
      destruct (IH (S attempt) st1) as (rs & He' & Hc' & Hr').
      exists (r :: rs). split; [|split].
      * rewrite He', He, <- app_assoc. done.
      * change (sumQ (ar_cost <$> r :: rs))
          with (ar_cost r + sumQ (ar_cost <$> rs))%Q.
        rewrite Hc', Hc. ring.
      * intros Ha.
        change (sumQ (ar_cost <$> r :: rs))
          with (ar_cost r + sumQ (ar_cost <$> rs))%Q.
        rewrite (Hr' Ha), (Hr Ha). ring.
    + simpl. apply Hone. destruct o; tauto.
Qed.

(** When an execution fails, the loop body does nothing more: no rollback,
    no classification, and the next iteration starts. *)
Lemma failed_execution_continues (attempt : nat) (st : State) :
  ar_success (runClaudePrompt isRetryableError w description audit attempt
                (costResults st)).1.1 = false →
  ∃ st', iteration attempt st = Continue st'
    ∧ kinds (trace st')
      = (kinds (trace st) ++ [KCheckpoint attempt; KExecute attempt])%list
    ∧ lastError st' = lastError st.
Proof.
  intros Hfail.
  pose proof (iteration_spec isRetryableError getRetryDelay cfg w prompt
                context description agentName audit attempt st) as Hit.
  simpl in Hit.
  destruct (iteration attempt st) as [st'|[r'|t] st'].
  - exists st'. split; [done|].
    destruct Hit as [_ [(_ & Hk & Hl)|(Hs & _)]]; [done|congruence].
  - destruct Hit as (_ & _ & Hs & _). congruence.
  - destruct Hit as (_ & Hs & _). congruence.
Qed.

(** When the output of a successful execution fails validation, the
    workspace is rolled back once; before the last attempt the loop goes
    on, on the last attempt the "validation exhausted" error is what the
    loop will throw. *)
Lemma failed_validation_rolls_back (attempt : nat) (st : State) :
  let r := (runClaudePrompt isRetryableError w description audit attempt
              (costResults st)).1.1 in
  ar_success r = true →
  validateAgentOutput cfg w r agentName attempt = false →
  (attempt < maxRetries →
   ∃ st', iteration attempt st = Continue st'
     ∧ kinds (trace st')
       = (kinds (trace st)
          ++ [KCheckpoint attempt; KExecute attempt; KRollback])%list)
  ∧ (¬ attempt < maxRetries →
     ∃ st', kinds (trace st')
            = (kinds (trace st)
               ++ [KCheckpoint attempt; KExecute attempt; KRollback])%list
       ∧ (iteration attempt st = Done (Threw (ThrowError exhausted)) st'
          ∨ (iteration attempt st = Continue st'
             ∧ lastError st' = ThrowError exhausted))).
Proof.
  intros r Hs Hv.
  pose proof (iteration_spec isRetryableError getRetryDelay cfg w prompt
                context description agentName audit attempt st) as Hit.
  simpl in Hit. fold r in Hit.
  destruct (iteration attempt st) as [st'|[r'|t] st'].
  - destruct Hit as [_ [(Hf & _)|(_ & _ & Hk & Hl)]]; [congruence|].
    split; intros Hlt.
    + by exists st'.
    + exists st'. split; [done|]. right. split; [done|].
      by destruct Hl.
  - destruct Hit as (_ & _ & _ & Hv' & _). congruence.
  - destruct Hit as (_ & _ & _ & Hlt & -> & Hk). split; intros Hlt'; [done|].
    exists st'. split; [done|]. by left.
Qed.

End RetryLoop.

Section Totals.

Variable isRetryableError : Error → bool.
Variable getRetryDelay : Error → nat → Z.
Variable cfg : Config.
Variable w : World.
Variables (prompt context description : string).
Variable agentName : option string.
Variable sessionMetadata : option SessionMetadata.

(** C8.  Over one run of the retry orchestrator, [costResults.total] grows
    by the sum of the costs returned by its attempts, failed attempts
    included, and, when an audit session is attached, the costs reported to
    it through [endAgent] add up to the same sum. *)
Theorem total_cost_is_sum (costs : CostResults) :
  let st' := (runClaudePromptWithRetry isRetryableError getRetryDelay cfg w
                prompt context description agentName sessionMetadata costs).2 in
  (cr_total (costResults st')
   == cr_total costs + sumQ (ar_cost <$> executed (trace st')))%Q
  ∧ (has_audit sessionMetadata agentName = true →
     (sumQ (reported_costs (trace st'))
      == sumQ (ar_cost <$> executed (trace st')))%Q).
Proof.
  unfold runClaudePromptWithRetry.
  destruct (attempts_accounted isRetryableError getRetryDelay cfg w prompt
              context description agentName
              (has_audit sessionMetadata agentName) maxRetries 1
              {| lastError := ThrowUndefined; retryContext := context;
                 costResults := costs; trace := [] |})
    as (rs & He & Hc & Hr).
  simpl in *. rewrite He. split; [exact Hc|].
  intros Ha. rewrite (Hr Ha). ring.
Qed.

End Totals.


Section Exhaustion.

Variable isRetryableError : Error → bool.
Variable getRetryDelay : Error → nat → Z.
Variable cfg : Config.
Variable w : World.

Local Abbreviation run :=
  (runClaudePromptWithRetry isRetryableError getRetryDelay cfg w).

Lemma attempts_S (prompt context description : string)
      (agentName : option string) (audit : bool)
      (remaining attempt : nat) (st : State) :
  attempts isRetryableError getRetryDelay cfg w prompt context description
    agentName audit (S remaining) attempt st
  = match iteration isRetryableError getRetryDelay cfg w prompt context
            description agentName audit attempt st with
    | Continue st' =>
        attempts isRetryableError getRetryDelay cfg w prompt context
          description agentName audit remaining (S attempt) st'
    | Done o st' => (o, st')
    end.
Proof. reflexivity. Qed.

(** A validator that never passes uses up the three attempts, each with
    its checkpoint, execution and rollback, and the loop ends by throwing
    the "validation exhausted" error. *)
Lemma validation_failure_cycles (prompt context description : string)
      (agentName : option string) (sessionMetadata : option SessionMetadata)
      (costs : CostResults) :
  validator_always_fails isRetryableError cfg w agentName →
  (run prompt context description agentName sessionMetadata costs).1
  = Threw (ThrowError (validation_exhausted description))
  ∧ kinds (trace (run prompt context description agentName sessionMetadata
                    costs).2)
    = [KCheckpoint 1; KExecute 1; KRollback;
       KCheckpoint 2; KExecute 2; KRollback;
       KCheckpoint 3; KExecute 3; KRollback].
Proof.
  intros Hfail. unfold runClaudePromptWithRetry.
  set (audit := has_audit sessionMetadata agentName).
  set (st0 := {| lastError := ThrowUndefined; retryContext := context;
                 costResults := costs; trace := [] |}).
  change maxRetries with 3.
  destruct (Hfail 1 description audit (costResults st0)) as [Hs1 Hv1];
    [unfold maxRetries; lia|].
  destruct (proj1 (failed_validation_rolls_back isRetryableError getRetryDelay
                     cfg w prompt context description agentName audit 1 st0
                     Hs1 Hv1)) as (st1 & Hit1 & Hk1);
    [unfold maxRetries; lia|].
  rewrite attempts_S, Hit1.
  destruct (Hfail 2 description audit (costResults st1)) as [Hs2 Hv2];
    [unfold maxRetries; lia|].
  destruct (proj1 (failed_validation_rolls_back isRetryableError getRetryDelay
                     cfg w prompt context description agentName audit 2 st1
                     Hs2 Hv2)) as (st2 & Hit2 & Hk2);
    [unfold maxRetries; lia|].
  rewrite attempts_S, Hit2.
  destruct (Hfail 3 description audit (costResults st2)) as [Hs3 Hv3];
    [unfold maxRetries; lia|].
  destruct (proj2 (failed_validation_rolls_back isRetryableError getRetryDelay
                     cfg w prompt context description agentName audit 3 st2
                     Hs3 Hv3)) as (st3 & Hk3 & [Hit3|[Hit3 Hlast]]);
    [unfold maxRetries; lia| |];
    rewrite attempts_S, Hit3; simpl; rewrite ?Hlast;
    (split; [done|]); rewrite Hk3, Hk2, Hk1; reflexivity.
Qed.

(** C2.  For an agent whose validator fails on every attempt while each
    execution reports success, the retry orchestrator performs exactly
    three checkpoint, execute, rollback cycles and then throws the fatal
    (non-retryable) error of type ['validation']; no commit is made, and
    the phase step that called it leaves the session, and so the agent's
    checkpoint entry, as it was. *)
Theorem validation_exhausted_after_three_cycles
        (prompt context description : string) (agentName : option string)
        (sessionMetadata : option SessionMetadata) (costs : CostResults) :
  validator_always_fails isRetryableError cfg w agentName →
  let fatal := validation_exhausted description in
  (run prompt context description agentName sessionMetadata costs).1
  = Threw (ThrowError fatal)
  ∧ err_type fatal = Some "validation" ∧ err_retryable fatal = false
  ∧ kinds (trace (run prompt context description agentName sessionMetadata
                    costs).2)
    = [KCheckpoint 1; KExecute 1; KRollback;
       KCheckpoint 2; KExecute 2; KRollback;
       KCheckpoint 3; KExecute 3; KRollback]
  ∧ ∀ (webUrl : string) (persisted : bool) (session : Session.Session),
      (agentName = Some "recon" →
       Session.phase2_recon isRetryableError getRetryDelay cfg w webUrl
         prompt description costs persisted session
       = Session.StepThrows (ThrowError fatal) session)
      ∧ (∀ reportCommitHash, agentName = Some "report" →
         Session.phase5_report isRetryableError getRetryDelay cfg w webUrl
           prompt description costs persisted reportCommitHash session
         = Session.StepThrows (ThrowError fatal) session).
Proof.
  intros Hfail fatal.
  destruct (validation_failure_cycles prompt context description agentName
              sessionMetadata costs Hfail) as [Hthrow Hkinds].
  split; [exact Hthrow|]. split; [reflexivity|]. split; [reflexivity|].
  split; [exact Hkinds|].
  intros webUrl persisted session. split.
  - intros ->. unfold Session.phase2_recon.
    destruct (validation_failure_cycles prompt "" description (Some "recon")
                (Session.metadata webUrl session) costs Hfail) as [Hrecon _].
    destruct (run prompt "" description (Some "recon")
                (Session.metadata webUrl session) costs)
      as [o st]. simpl in Hrecon. by subst o.
  - intros reportCommitHash ->. unfold Session.phase5_report.
    destruct (validation_failure_cycles prompt "" description (Some "report")
                (Session.metadata webUrl session) costs Hfail) as [Hreport _].
    destruct (run prompt "" description (Some "report")
                (Session.metadata webUrl session) costs)
      as [o st]. simpl in Hreport. by subst o.
Qed.

(** When every execution fails, the orchestrator checkpoints and executes
    three times, never rolls back, and ends by throwing the unassigned
    [lastError]. *)
Lemma execution_failures_fall_through (prompt context description : string)
      (agentName : option string) (sessionMetadata : option SessionMetadata)
      (costs : CostResults) :
  (∀ (attempt : nat) (c : CostResults), (1 ≤ attempt ≤ maxRetries)%nat →
     ar_success (runClaudePrompt isRetryableError w description
                   (has_audit sessionMetadata agentName) attempt c).1.1
     = false) →
  (run prompt context description agentName sessionMetadata costs).1
  = Threw ThrowUndefined
  ∧ kinds (trace (run prompt context description agentName sessionMetadata
                    costs).2)
    = [KCheckpoint 1; KExecute 1; KCheckpoint 2; KExecute 2;
       KCheckpoint 3; KExecute 3].
Proof.
  intros Hfail. unfold runClaudePromptWithRetry.
  set (audit := has_audit sessionMetadata agentName) in *.
  set (st0 := {| lastError := ThrowUndefined; retryContext := context;
                 costResults := costs; trace := [] |}).
  change maxRetries with 3.
  destruct (failed_execution_continues isRetryableError getRetryDelay cfg w
              prompt context description agentName audit 1 st0)
    as (st1 & Hit1 & Hk1 & Hl1); [apply Hfail; unfold maxRetries; lia|].
  rewrite attempts_S, Hit1.
  destruct (failed_execution_continues isRetryableError getRetryDelay cfg w
              prompt context description agentName audit 2 st1)
    as (st2 & Hit2 & Hk2 & Hl2); [apply Hfail; unfold maxRetries; lia|].
  rewrite attempts_S, Hit2.
  destruct (failed_execution_continues isRetryableError getRetryDelay cfg w
              prompt context description agentName audit 3 st2)
    as (st3 & Hit3 & Hk3 & Hl3); [apply Hfail; unfold maxRetries; lia|].
  rewrite attempts_S, Hit3. simpl.
  split; [by rewrite Hl3, Hl2, Hl1|].
  rewrite Hk3, Hk2, Hk1. reflexivity.
Qed.

End Exhaustion.

Section Fallthrough.

Variable isRetryableError : Error → bool.
Variable getRetryDelay : Error → nat → Z.
Variable cfg : Config.
Variable w : World.
Variables (prompt context description : string).
Variable agentName : option string.
Variable audit : bool.

Local Abbreviation iteration :=
  (iteration isRetryableError getRetryDelay cfg w prompt context description
     agentName audit).
Local Abbreviation attempts :=
  (attempts isRetryableError getRetryDelay cfg w prompt context description
     agentName audit).

(** Every iteration starts with a checkpoint and an execution. *)
Lemma iteration_kinds (attempt : nat) (st : State) :
  ∃ more,
    kinds (trace match iteration attempt st with
                 | Continue st' => st'
                 | Done _ st' => st'
                 end)
    = (kinds (trace st)
       ++ KCheckpoint attempt :: KExecute attempt :: more)%list.
Proof.
  pose proof (iteration_spec isRetryableError getRetryDelay cfg w prompt
                context description agentName audit attempt st) as Hit.
  simpl in Hit.
  destruct (iteration attempt st) as [st'|[r'|t] st'].
  - destruct Hit as [_ [(_ & Hk & _)|(_ & _ & Hk & _)]]; rewrite Hk;
      by eexists.
  - destruct Hit as (_ & _ & _ & _ & Hk). rewrite Hk. by eexists.
  - destruct Hit as (_ & _ & _ & _ & _ & Hk). rewrite Hk. by eexists.
Qed.

(** The loop only ever adds to the trace. *)
Lemma attempts_kinds (remaining : nat) :
  ∀ (attempt : nat) (st : State),
    ∃ more,
      kinds (trace (attempts remaining attempt st).2)
      = (kinds (trace st) ++ more)%list.
Proof.
  induction remaining as [|remaining IH]; intros attempt st.
  - exists []. by rewrite app_nil_r.
  - rewrite attempts_S. destruct (iteration_kinds attempt st) as [more Hk].
    destruct (iteration attempt st) as [st'|o st'].
    + destruct (IH (S attempt) st') as [more' Hk'].
      rewrite Hk', Hk, <- app_assoc. by eexists.
    + simpl. rewrite Hk. by eexists.
Qed.

End Fallthrough.

Section FirstFailure.

Variable isRetryableError : Error → bool.
Variable getRetryDelay : Error → nat → Z.
Variable cfg : Config.
Variable w : World.
Variables (prompt context description : string).
Variable agentName : option string.
Variable sessionMetadata : option SessionMetadata.

(** C3 (what the code does).  When the first execution fails, whatever the
    classification of its error, the orchestrator does not roll back and
    does not stop: the next thing it does is the checkpoint and the
    execution of a second attempt. *)
Theorem failed_execution_is_retried (costs : CostResults) :
  ar_success (runClaudePrompt isRetryableError w description
                (has_audit sessionMetadata agentName) 1 costs).1.1 = false →
  ∃ more,
    kinds (trace (runClaudePromptWithRetry isRetryableError getRetryDelay cfg
                    w prompt context description agentName sessionMetadata
                    costs).2)
    = KCheckpoint 1 :: KExecute 1 :: KCheckpoint 2 :: KExecute 2 :: more.
Proof.
  intros Hfail. unfold runClaudePromptWithRetry.
  set (audit := has_audit sessionMetadata agentName) in *.
  set (st0 := {| lastError := ThrowUndefined; retryContext := context;
                 costResults := costs; trace := [] |}).
  change maxRetries with 3.
  destruct (failed_execution_continues isRetryableError getRetryDelay cfg w
              prompt context description agentName audit 1 st0 Hfail)
    as (st1 & Hit1 & Hk1 & _).
  rewrite attempts_S, Hit1, attempts_S.
  destruct (iteration_kinds isRetryableError getRetryDelay cfg w prompt
              context description agentName audit 2 st1) as [more Hk2].
  destruct (iteration isRetryableError getRetryDelay cfg w prompt context
              description agentName audit 2 st1) as [st2|o st2].
  - destruct (attempts_kinds isRetryableError getRetryDelay cfg w prompt
                context description agentName audit 1 3 st2) as [more' Hk3].
    rewrite Hk3, Hk2, Hk1. simpl. by eexists.
  - simpl. rewrite Hk2, Hk1. simpl. by eexists.
Qed.

End FirstFailure.

Lemma validation_exhausted_after_three_cycles_witness :
  let run := runClaudePromptWithRetry by_flag backoff plain never_valid
               "Write the report." "" "Report agent" (Some "report") meta
               no_costs in
  let fatal := validation_exhausted "Report agent" in
  validator_always_fails by_flag plain never_valid (Some "report")
  ∧ run.1 = Threw (ThrowError fatal)
  ∧ kinds (trace run.2)
    = [KCheckpoint 1; KExecute 1; KRollback;
       KCheckpoint 2; KExecute 2; KRollback;
       KCheckpoint 3; KExecute 3; KRollback]
  ∧ Session.phase5_report by_flag backoff plain never_valid
      "https://example.com" "Write the report." "Report agent" no_costs true
      (Some "4f2a9c1e") fresh
    = Session.StepThrows (ThrowError fatal) fresh.
Proof.
  intros run fatal.
  assert (validator_always_fails by_flag plain never_valid (Some "report"))
    as Hfail.
  { intros attempt description audit costs _. destruct audit; by split. }
  destruct (validation_exhausted_after_three_cycles by_flag backoff plain
              never_valid "Write the report." "" "Report agent"
              (Some "report") meta no_costs Hfail)
    as (Hthrow & _ & _ & Hkinds & Hsession).
  split; [exact Hfail|]. split; [exact Hthrow|]. split; [exact Hkinds|].
  exact (proj2 (Hsession "https://example.com" true fresh)
           (Some "4f2a9c1e") eq_refl).
Defined.

Lemma total_cost_is_sum_witness :
  let st' := (runClaudePromptWithRetry by_flag backoff plain second_time_lucky
                "Map the attack surface." "" "Recon agent" (Some "recon")
                meta no_costs).2 in
  ar_cost <$> executed (trace st') = [1 # 4; 1 # 2]
  ∧ (cr_total (costResults st')
     == 0 + sumQ (ar_cost <$> executed (trace st')))%Q
  ∧ (sumQ (reported_costs (trace st'))
     == sumQ (ar_cost <$> executed (trace st')))%Q.
Proof.
  intros st'.
  destruct (total_cost_is_sum by_flag backoff plain second_time_lucky
              "Map the attack surface." "" "Recon agent" (Some "recon")
              meta no_costs) as [Htotal Haudit].
  split; [reflexivity|]. split; [exact Htotal|exact (Haudit eq_refl)].
Defined.

Lemma failed_execution_is_retried_witness :
  let first := (runClaudePrompt by_flag auth_failure "Recon agent" true 1
                  no_costs).1.1 in
  ar_success first = false ∧ ar_retryable first = Some false
  ∧ ∃ more,
      kinds (trace (runClaudePromptWithRetry by_flag backoff plain
                      auth_failure "Map the attack surface." ""
                      "Recon agent" (Some "recon") meta no_costs).2)
      = KCheckpoint 1 :: KExecute 1 :: KCheckpoint 2 :: KExecute 2 :: more.
Proof.
  intros first. split; [reflexivity|]. split; [reflexivity|].
  exact (failed_execution_is_retried by_flag backoff plain auth_failure
           "Map the attack surface." "" "Recon agent" (Some "recon") meta
           no_costs eq_refl).
Defined.

(** C5 (what the code does).  With the quota message in the assistant
    content of every attempt, each execution returns a failure classified
    non-retryable, and still the orchestrator makes all three attempts,
    rolls nothing back, and ends by throwing [undefined]. *)
Theorem session_limit_is_retried :
  let run := runClaudePromptWithRetry by_flag backoff plain quota_exhausted
               "Map the attack surface." "" "Recon agent" (Some "recon") meta
               no_costs in
  Forall (λ r, ar_success r = false
               ∧ ar_error r = Some "Session limit reached"
               ∧ ar_retryable r = Some false)
         (executed (trace run.2))
  ∧ run.1 = Threw ThrowUndefined
  ∧ kinds (trace run.2)
    = [KCheckpoint 1; KExecute 1; KCheckpoint 2; KExecute 2;
       KCheckpoint 3; KExecute 3].
Proof.
  intros run. split; [|split].
  - vm_compute. repeat constructor.
  - reflexivity.
  - reflexivity.
Qed.

(** ** Session progress *)

Lemma elem_of_uniq (l : list string) :
  ∀ (seen : list string) (x : string),
    x ∈ Session.uniq seen l ↔ x ∈ l ∧ x ∉ seen.
Proof.
  induction l as [|y l IH]; intros seen x; simpl.
  - split; [by intros ?%not_elem_of_nil|by intros [?%not_elem_of_nil _]].
  - case_bool_decide as Hy.
    + rewrite IH, elem_of_cons. split.
      * intros [Hx Hs]. split; [by right|done].
      * intros [[->|Hx] Hs]; done.
    + rewrite elem_of_cons, IH, !elem_of_cons. split.
      * intros [->|[Hx Hs]]; [by split; [left|]|].
        split; [by right|]. intros Hin. apply Hs. by right.
      * intros [[->|Hx] Hs]; [by left|].
        destruct (decide (x = y)) as [->|Hne]; [by left|]. right.
        split; [done|]. intros [?|?]; [by apply Hne|by apply Hs].
Qed.

Lemma elem_of_completed_updates (session : Session.Session)
      (agentName : string) (commitHash : option string) (x : string) :
  x ∈ Session.u_completedAgents
        (Session.make_updates session agentName commitHash)
  ↔ x ∈ Session.completedAgents session ∨ x = agentName.
Proof.
  simpl. rewrite elem_of_uniq, elem_of_app, list_elem_of_singleton.
  split; [tauto|]. intros H. split; [done|]. apply not_elem_of_nil.
Qed.

Lemma elem_of_failed_updates (session : Session.Session)
      (agentName : string) (commitHash : option string) (x : string) :
  x ∈ Session.u_failedAgents
        (Session.make_updates session agentName commitHash)
  ↔ x ∈ Session.failedAgents session ∧ x ≠ agentName.
Proof.
  simpl. rewrite list_elem_of_In, filter_In, <- list_elem_of_In.
  destruct (String.eqb_spec x agentName) as [->|Hne]; simpl.
  - split; [by intros [_ ?]|by intros [_ ?]].
  - split; [by intros [? _]|by intros [? _]].
Qed.

(** C7 (amended).  When the session store accepts the update,
    [updateSessionProgress] leaves [agentName] in [completedAgents] and out
    of [failedAgents]; when the store throws, the session is left as it was.
    Either way an agent name that was in at most one of the two lists still
    is, checkpoints still belong to completed agents, and the only entry of
    [checkpoints] that can change is that of [agentName], which is then in
    [completedAgents]. *)
Theorem update_preserves_invariant (persisted : bool)
        (session : Session.Session) (agentName : string)
        (commitHash : option string) :
  let session' :=
    Session.updateSessionProgress persisted session agentName commitHash in
  (persisted = true → recorded agentName session')
  ∧ (persisted = false → session' = session)
  ∧ (disjoint session → disjoint session')
  ∧ (checkpointed session → checkpointed session')
  ∧ (∀ n, Session.checkpoints session' !! n ≠ Session.checkpoints session !! n →
       n = agentName ∧ n ∈ Session.completedAgents session').
Proof.
  unfold Session.updateSessionProgress, recorded, disjoint, checkpointed.
  destruct persisted; cbv zeta.
  - unfold Session.assign;
      cbn [Session.completedAgents Session.failedAgents Session.checkpoints].
    split; [intros _|split; [done|split; [|split]]].
    + rewrite elem_of_completed_updates, elem_of_failed_updates. tauto.
    + intros Hdis n.
      rewrite elem_of_completed_updates, elem_of_failed_updates.
      specialize (Hdis n). tauto.
    + intros Hck n. rewrite elem_of_completed_updates. simpl.
      destruct commitHash as [h|]; [destruct (truthy h)|]; simpl;
        try (intros Hn; left; by apply Hck).
      destruct (decide (agentName = n)) as [->|Hne]; [by right|].
      rewrite lookup_insert_ne by done. intros Hn; left; by apply Hck.
    + intros n. rewrite elem_of_completed_updates. simpl.
      destruct commitHash as [h|]; [destruct (truthy h)|]; simpl; try done.
      destruct (decide (agentName = n)) as [->|Hne]; [by split; [|right]|].
      by rewrite lookup_insert_ne.
  - split; [done|]. split; [done|]. split; [done|]. split; [done|].
    intros n Hn. done.
Qed.

Lemma update_preserves_invariant_witness :
  let session' :=
    Session.updateSessionProgress true fresh "recon" (Some "4f2a9c1e") in
  recorded "recon" session'
  ∧ disjoint session'
  ∧ checkpointed session'
  ∧ Session.checkpoints session' !! "recon" = Some "4f2a9c1e".
Proof.
  intros session'.
  destruct (update_preserves_invariant true fresh "recon" (Some "4f2a9c1e"))
    as (Hrec & _ & Hdis & Hck & _).
  split; [exact (Hrec eq_refl)|]. split; [|split; [|reflexivity]].
  - apply Hdis. intros n [Hc Hf]. simpl in Hc, Hf.
    apply list_elem_of_singleton in Hc. apply list_elem_of_singleton in Hf.
    congruence.
  - apply Hck. intros n [h Hn]. simpl in Hn. by rewrite lookup_empty in Hn.
Defined.

(** When the session store rejects the update, the [catch] of
    [updateSessionProgress] skips the assignment: the agent is not added to
    [completedAgents] and stays in [failedAgents]. *)
Lemma update_not_recorded_when_store_fails :
  ¬ recorded "recon" (Session.updateSessionProgress false fresh "recon" None).
Proof.
  intros [Hc _]. simpl in Hc. apply list_elem_of_singleton in Hc. discriminate.
Qed.

(** C6.  [getNextAgent] returns the first agent of the catalog whose name
    is not in [completedAgents], so an agent that is not completed, and it
    returns null exactly when every agent of the catalog is completed. *)
Theorem getNextAgent_first_uncompleted (catalog : list Session.Agent)
        (session : Session.Session) :
  (∀ a, Session.getNextAgent catalog session = Some a →
     (Session.name a ∉ Session.completedAgents session)
     ∧ ∃ before after,
         catalog = (before ++ a :: after)%list
         ∧ ∀ b, b ∈ before →
             Session.name b ∈ Session.completedAgents session)
  ∧ (Session.getNextAgent catalog session = None
     ↔ ∀ a, a ∈ catalog → Session.name a ∈ Session.completedAgents session).
Proof.
  unfold Session.getNextAgent.
  induction catalog as [|b catalog [IHsome IHnone]]; simpl.
  - split; [done|]. split; [by intros _ a ?%not_elem_of_nil|done].
  - case_bool_decide as Hb; simpl.
    + split.
      * intros a Ha. destruct (IHsome a Ha) as (Hna & before & after & -> & Hbefore).
        split; [done|]. exists (b :: before), after. split; [done|].
        intros c [->|Hc]%elem_of_cons; [done|by apply Hbefore].
      * rewrite IHnone. split.
        -- intros Hall a [->|Ha]%elem_of_cons; [done|by apply Hall].
        -- intros Hall a Ha. apply Hall. by right.
    + split.
      * intros a [= <-]. split; [done|]. exists [], catalog. split; [done|].
        by intros c ?%not_elem_of_nil.
      * split; [done|]. intros Hall. exfalso. apply Hb, Hall. by left.
Qed.

Lemma getNextAgent_first_uncompleted_witness :
  let session :=
    {| Session.id := "s-2";
       Session.completedAgents := ["pre-recon"; "recon"];
       Session.failedAgents := []; Session.checkpoints := ∅;
       Session.status := "in-progress" |} in
  Session.getNextAgent Session.AGENTS session
  = Some {| Session.name := "injection-vuln"; Session.phase := 3 |}
  ∧ "injection-vuln" ∉ Session.completedAgents session.
Proof.
  intros session.
  assert (Session.getNextAgent Session.AGENTS session
          = Some {| Session.name := "injection-vuln"; Session.phase := 3 |})
    as Hnext by reflexivity.
  split; [exact Hnext|].
  exact (proj1 (proj1 (getNextAgent_first_uncompleted Session.AGENTS session)
                  _ Hnext)).
Defined.

(** ** Signals *)

(** C9 (what the code does).  The handler of either signal logs one line
    and exits with code 0: it performs no rollback, and the changes that
    the attempt in flight has made since its checkpoint are left in the
    workspace. *)
Theorem interrupt_exits_without_rollback (s : Signal) (p : Process) :
  exited p = None →
  let p' := deliver s p in
  exited p' = Some 0%Z
  ∧ (RollbackWorkspace ∉ handler s)
  ∧ uncommitted p' = uncommitted p
  ∧ in_flight p' = in_flight p.
Proof.
  intros Hrun. unfold deliver.
  destruct s; simpl; unfold perform; simpl; rewrite Hrun; simpl;
    (split; [done|]); (split; [|done]);
    intros Hin; repeat (apply elem_of_cons in Hin as [Hin|Hin]);
    try discriminate; by apply not_elem_of_nil in Hin.
Qed.

Lemma interrupt_exits_without_rollback_witness :
  let p' := deliver SIGINT mid_attempt in
  exited p' = Some 0%Z
  ∧ (RollbackWorkspace ∉ handler SIGINT)
  ∧ uncommitted p' = ["deliverables/recon_deliverable.md"; "error.log"]
  ∧ in_flight p' = Some 1.
Proof.
  exact (interrupt_exits_without_rollback SIGINT mid_attempt eq_refl).
Defined.

(* ===================================================================== *)
(** * Part III: further properties of the code                           *)
(* ===================================================================== *)

Import Shapes ToolChecker Report PromptNames LlmAdapter Cli Scenarios.

(** ** [Promise.all] over promises that all fulfil *)

Section PromiseAllShape.

Context {A : Type}.







End PromiseAllShape.

Section PromiseAllRejection.

Context {A : Type}.

(** [Promise.all] rejects with the reason of one of its inputs. *)
Lemma all_settle_rejection_origin (ps : list (Settled A)) (order : list nat) :
  ∀ (slots : list (option A)) (t : Thrown),
    all_settle ps slots order = AllRejected t →
    ∃ j, ps !! j = Some (Rejected t).
Proof.
  induction order as [|i rest IH]; intros slots t; simpl.
  - by destruct (mapM id slots).
  - destruct (ps !! i) as [[v|t']|] eqn:Hi.
    + apply IH.
    + intros [= <-]. by exists i.
    + apply IH.
Qed.

(** When a single reason [t] can reject, and a promise that rejects
    settles, [Promise.all] rejects with [t]. *)
Lemma all_settle_rejects (ps : list (Settled A)) (t : Thrown)
      (order : list nat) (i : nat) :
  (∀ j t', ps !! j = Some (Rejected t') → t' = t) →
  ps !! i = Some (Rejected t) →
  i ∈ order →
  ∀ slots, all_settle ps slots order = AllRejected t.
Proof.
  intros Honly Hi. induction order as [|j rest IH]; intros Hin slots; simpl.
  - by apply not_elem_of_nil in Hin.
  - destruct (ps !! j) as [[v|t']|] eqn:Hj.
    + apply IH. apply elem_of_cons in Hin as [->|Hin]; [congruence|done].
    + by rewrite (Honly _ _ Hj).
    + apply IH. apply elem_of_cons in Hin as [->|Hin]; [congruence|done].
Qed.

End PromiseAllRejection.

(** ** The waves, whatever the tools and the agent do *)

Section WaveOutcomes.

Variable errorSummary : Error → string.
Variable w : Tools.World.
Variable order : list nat.
Variable webUrl : string.

(** An operation other than the agent's always fulfils. *)
Lemma start_scan_fulfils (agent : Settled AttemptResult) (op : Op) (t : Thrown) :
  start errorSummary w agent webUrl op = Rejected t →
  op = OpAgent ∧ agent = Rejected t.
Proof.
  destruct op; simpl; try discriminate.
  destruct agent; [discriminate|]. by intros [= ->].
Qed.

Lemma started_rejections (agent : Settled AttemptResult) (ops : list Op)
      (j : nat) (t : Thrown) :
  map (start errorSummary w agent webUrl) ops !! j = Some (Rejected t) →
  ops !! j = Some OpAgent ∧ agent = Rejected t.
Proof.
  rewrite list_lookup_fmap. destruct (ops !! j) as [op|]; [|done].
  simpl. intros [= H]. apply start_scan_fulfils in H as [-> ->]. done.
Qed.

(** No promise scheduled by the additional-scanning wave rejects. *)
Lemma wave2_no_rejection (agent : Settled AttemptResult)
      (toolAvailability : gmap string bool) (t : Thrown) :
  promise_all
    (map (start errorSummary w agent webUrl)
         (wave2_operations toolAvailability)) order
  ≠ AllRejected t.
Proof.
  intros Hall. apply all_settle_rejection_origin in Hall as [j Hj].
  apply started_rejections in Hj as [Hj _].
  rewrite wave2_operations_filter, list_lookup_fmap in Hj.
  by destruct (List.filter _ _ !! j).
Qed.

(** X1.  The additional-scanning wave never rejects: whatever the tools
    do, in whatever mode and settling order, its promise resolves or is
    still waiting for a scan. *)
Theorem wave2_never_rejects (agent : Settled AttemptResult)
        (toolAvailability : gmap string bool) (pipelineTestingMode : bool) :
  runPreReconWave2 errorSummary w agent order webUrl toolAvailability
    pipelineTestingMode = WavePending
  ∨ ∃ response,
      runPreReconWave2 errorSummary w agent order webUrl toolAvailability
        pipelineTestingMode = WaveResolved response.
Proof.
  unfold runPreReconWave2.
  destruct pipelineTestingMode; [right; by eexists|]. cbv zeta.
  destruct (length (wave2_operations toolAvailability) =? 0)%nat;
    [right; by eexists|].
  pose proof (wave2_no_rejection agent toolAvailability) as Hno.
  destruct (promise_all _ order) as [vs|t'|];
    [right; by eexists|by destruct (Hno t')|by left].
Qed.

(** A rejection of the initial wave is the agent's, outside blackbox
    mode. *)
Lemma wave1_rejection_origin (agent : Settled AttemptResult)
      (toolAvailability : gmap string bool)
      (pipelineTestingMode isBlackbox : bool) (t : Thrown) :
  runPreReconWave1 errorSummary w agent order webUrl toolAvailability
    pipelineTestingMode isBlackbox = WaveRejected t →
  isBlackbox = false ∧ agent = Rejected t.
Proof.
  unfold runPreReconWave1.
  destruct pipelineTestingMode; cbv zeta.
  - destruct isBlackbox; [done|]. simpl.
    destruct (promise_all _ order) as [vs|t'|] eqn:Hall; [done| |done].
    intros [= ->]. apply all_settle_rejection_origin in Hall as [j Hj].
    destruct j as [|j]; [|done]. simpl in Hj.
    destruct agent; [done|]. by injection Hj as ->.
  - destruct (promise_all _ order) as [vs|t'|] eqn:Hall; [done| |done].
    intros [= ->]. apply all_settle_rejection_origin in Hall as [j Hj].
    apply started_rejections in Hj as [Hj ->]. split; [|done].
    destruct isBlackbox; [|done]. exfalso.
    unfold wave1_operations in Hj. rewrite app_nil_r in Hj.
    destruct j as [|[|[|[|j]]]]; simpl in Hj; try done.
    by destruct (available toolAvailability "naabu").
Qed.

(** X2.  The initial wave rejects only with the error of the
    code-analysis agent, and it does reject with it once the agent's
    promise has settled: the scans cannot fail the wave. *)
Theorem wave1_rejects_with_agent (agent : Settled AttemptResult)
        (toolAvailability : gmap string bool)
        (pipelineTestingMode isBlackbox : bool) :
  (∀ t, runPreReconWave1 errorSummary w agent order webUrl toolAvailability
          pipelineTestingMode isBlackbox = WaveRejected t →
        isBlackbox = false ∧ agent = Rejected t)
  ∧ (∀ t, isBlackbox = false → agent = Rejected t →
          (if pipelineTestingMode then 0 else 4) ∈ order →
          runPreReconWave1 errorSummary w agent order webUrl toolAvailability
            pipelineTestingMode isBlackbox = WaveRejected t).
Proof.
  split; [intros t; apply wave1_rejection_origin|].
  intros t -> -> Hin. unfold runPreReconWave1.
  destruct pipelineTestingMode; cbv zeta.
  - simpl. unfold promise_all.
    by rewrite (all_settle_rejects _ t order 0);
      [| intros [|j] t'; simpl; [by intros [= ->]|done] | |].
  - unfold promise_all.
    rewrite (all_settle_rejects _ t order 4); [done| |done|done].
    intros j t' Hj. by apply started_rejections in Hj as [_ [= ->]].
Qed.

(** X3.  In blackbox mode the initial wave does not consult the agent:
    its outcome is the same whatever the agent would do, and the
    code-analysis entry of a resolved wave is the "skipped (blackbox
    mode)" record. *)
Theorem wave1_blackbox_skips_agent (agent agent' : Settled AttemptResult)
        (toolAvailability : gmap string bool)
        (pipelineTestingMode : bool) :
  runPreReconWave1 errorSummary w agent order webUrl toolAvailability
    pipelineTestingMode true
  = runPreReconWave1 errorSummary w agent' order webUrl toolAvailability
      pipelineTestingMode true
  ∧ (∀ response,
       runPreReconWave1 errorSummary w agent order webUrl toolAvailability
         pipelineTestingMode true = WaveResolved response →
       response !! "codeAnalysis" = Some (VScan blackbox_skipped)).
Proof.
  split.
  - unfold runPreReconWave1, wave1_operations.
    destruct pipelineTestingMode; [done|]. cbv zeta.
    by destruct (available toolAvailability "naabu").
  - intros response. unfold runPreReconWave1.
    destruct pipelineTestingMode; cbv zeta.
    + simpl. intros [= <-]. by simplify_map_eq.
    + destruct (promise_all _ order); try done.
      intros [= <-]. by simplify_map_eq.
Qed.

End WaveOutcomes.

Lemma wave1_rejects_with_agent_witness :
  let boom := ThrowError (mkError "prompt file missing") in
  runPreReconWave1 summary two_down (Rejected boom) [4; 0] "https://example.com"
    some_tools false false = WaveRejected boom.
Proof.
  intros boom.
  exact (proj2 (wave1_rejects_with_agent summary two_down [4; 0]
                  "https://example.com" (Rejected boom) some_tools false
                  false) boom eq_refl eq_refl
           ltac:(repeat constructor)).
Defined.

Lemma wave1_blackbox_skips_agent_witness :
  let boom := ThrowError (mkError "prompt file missing") in
  ∃ response,
    runPreReconWave1 summary two_down (Rejected boom) [3; 2; 1; 0]
      "https://example.com" some_tools false true = WaveResolved response
    ∧ response !! "codeAnalysis" = Some (VScan blackbox_skipped).
Proof.
  intros boom. eexists. split; [reflexivity|].
  exact (proj2 (wave1_blackbox_skips_agent summary two_down [3; 2; 1; 0]
                  "https://example.com" (Rejected boom)
                  (Fulfilled analysis_done) some_tools false) _ eq_refl).
Defined.

(** ** From the tool check to the waves *)

Lemma checkToolAvailability_entries (found : string → bool) :
  checkToolAvailability found = map (λ t, (t, found t)) tools.
Proof. reflexivity. Qed.

Lemma missing_of_entries (found : string → bool) (l : list string) :
  map fst (List.filter (λ e : string * bool, negb (snd e))
             (map (λ t, (t, found t)) l))
  = List.filter (λ t, negb (found t)) l.
Proof.
  induction l as [|t l IH]; [done|]. simpl.
  destruct (found t); simpl; by rewrite IH.
Qed.

(** What the waves read off the object returned by the tool check. *)
Lemma available_checked (found : string → bool) (t : string) :
  available (as_map (checkToolAvailability found)) t
  = bool_decide (t ∈ tools) && found t.
Proof.
  rewrite checkToolAvailability_entries. unfold available, as_map, tools.
  simpl.
  repeat match goal with
         | |- context [<[?k := _]> _ !! t] =>
             destruct (decide (k = t)) as [<-|?];
             [rewrite lookup_insert_eq;
              rewrite bool_decide_eq_true_2 by repeat constructor; done
             |rewrite (lookup_insert_ne _ k t) by done]
         end.
  rewrite lookup_empty. simpl. symmetry.
  rewrite bool_decide_eq_false_2; [done|].
  intros Hin. repeat (apply elem_of_cons in Hin as [->|Hin]; [done|]).
  by apply not_elem_of_nil in Hin.
Qed.

(** X4.  The tools reported missing are exactly the probed tools whose
    [command -v] failed, in probing order. *)
Theorem missing_tools_are_those_not_found (found : string → bool) :
  handleMissingTools (checkToolAvailability found)
  = List.filter (λ t, negb (found t)) tools.
Proof.
  rewrite checkToolAvailability_entries. apply missing_of_entries.
Qed.

(** X5.  Outside pipeline-testing mode, with the availability object of
    the tool check, the [operations] array of a wave holds the scan of an
    optional tool exactly when [command -v] found it: the array of the
    additional wave is the scans of the tools found among schemathesis,
    httpx, nuclei and sqlmap, in that order, and the array of the initial
    wave holds the scan of naabu if and only if naabu was found. *)
Theorem scans_scheduled_iff_found (found : string → bool)
        (isBlackbox : bool) :
  let toolAvailability := as_map (checkToolAvailability found) in
  wave2_operations toolAvailability
  = OpScan <$> List.filter found wave2_tools
  ∧ (OpScan "naabu" ∈ wave1_operations toolAvailability isBlackbox
     ↔ found "naabu" = true).
Proof.
  intros toolAvailability. split.
  - rewrite wave2_operations_filter. subst toolAvailability.
    unfold wave2_tools. cbn [List.filter]. rewrite !available_checked.
    by rewrite !bool_decide_eq_true_2 by repeat constructor.
  - unfold wave1_operations. subst toolAvailability.
    rewrite available_checked.
    rewrite bool_decide_eq_true_2 by repeat constructor. simpl.
    destruct (found "naabu"); split; try done.
    + intros _. repeat constructor.
    + intros Hin.
      do 4 (apply elem_of_cons in Hin as [Hin|Hin]; [discriminate|]).
      destruct isBlackbox; [by apply not_elem_of_nil in Hin|].
      apply list_elem_of_singleton in Hin. discriminate.
Qed.

(** ** Prompt names *)

Section Substrings.

Lemma length_append (s t : string) :
  String.length (s +:+ t) = (String.length s + String.length t)%nat.
Proof. induction s as [|c s IH]; simpl; [done|]. by rewrite IH. Qed.

Lemma substring_whole (s : string) :
  String.substring 0 (String.length s) s = s.
Proof. induction s as [|c s IH]; simpl; [done|]. by rewrite IH. Qed.

(** The first [length s] characters of [s +:+ t]. *)
Lemma substring_head (s t : string) :
  String.substring 0 (String.length s) (s +:+ t) = s.
Proof.
  induction s as [|c s IH]; simpl.
  - by destruct t.
  - by rewrite IH.
Qed.

(** Past [s], a substring of [s +:+ t] is a substring of [t]. *)
Lemma substring_skip (s t : string) (k m : nat) :
  String.substring (String.length s + k) m (s +:+ t) = String.substring k m t.
Proof. induction s as [|c s IH]; simpl; [done|]. apply IH. Qed.

Lemma substring_tail (s t : string) :
  String.substring (String.length s) (String.length t) (s +:+ t) = t.
Proof.
  rewrite <- (Nat.add_0_r (String.length s)), substring_skip.
  apply substring_whole.
Qed.

(** [capture] finds what was put in front of the suffix. *)
Lemma capture_append (suffix type : string) :
  type ≠ "" → has_line_terminator type = false →
  capture suffix (type +:+ suffix) = Some type.
Proof.
  intros Hne Hline. unfold capture.
  rewrite length_append, Nat.add_sub, substring_head, substring_tail.
  rewrite String.eqb_refl, Hline.
  destruct type as [|c type]; [done|]. simpl.
  by rewrite (proj2 (Nat.ltb_lt _ _)) by lia.
Qed.

(** A name with another ending is not captured. *)
Lemma capture_other (suffix : string) (type ending : string) :
  (String.length suffix ≤ String.length ending)%nat →
  String.substring (String.length ending - String.length suffix)
    (String.length suffix) ending ≠ suffix →
  capture suffix (type +:+ ending) = None.
Proof.
  intros Hlen Hend. unfold capture. rewrite length_append.
  replace (String.length type + String.length ending - String.length suffix)%nat
    with (String.length type
          + (String.length ending - String.length suffix))%nat by lia.
  rewrite substring_skip.
  apply String.eqb_neq in Hend. rewrite Hend.
  by rewrite andb_false_r.
Qed.

(** A name with the ending [ending] is none of the three special names
    when none of them ends so. *)
Lemma append_not (type ending name : string) :
  String.substring (String.length name - String.length ending)
    (String.length ending) name ≠ ending →
  String.eqb (type +:+ ending) name = false.
Proof.
  intros Hend. apply String.eqb_neq. intros <-. apply Hend.
  rewrite length_append, Nat.add_sub. apply substring_tail.
Qed.

End Substrings.

(** X6.  An agent named [<type>-vuln] reads the prompt [vuln-<type>], and
    one named [<type>-exploit] the prompt [exploit-<type>], for every
    non-empty [type] that stays on one line. *)
Theorem agent_prompt_names (type : string) :
  type ≠ "" → has_line_terminator type = false →
  agentNameToPromptName (type +:+ "-vuln") = "vuln-" +:+ type
  ∧ agentNameToPromptName (type +:+ "-exploit") = "exploit-" +:+ type.
Proof.
  intros Hne Hline. unfold agentNameToPromptName. split.
  - rewrite !append_not by (simpl; discriminate).
    by rewrite capture_append.
  - rewrite !append_not by (simpl; discriminate).
    rewrite (capture_other "-vuln" type "-exploit")
      by (simpl; first [lia|discriminate]).
    by rewrite capture_append.
Qed.

Lemma agent_prompt_names_witness :
  agentNameToPromptName "injection-vuln" = "vuln-injection"
  ∧ agentNameToPromptName "injection-exploit" = "exploit-injection".
Proof.
  exact (agent_prompt_names "injection" ltac:(discriminate) eq_refl).
Defined.


(** ** The pre-reconnaissance phase and its report *)

Section Phase.

Variable fs : Files.
Variable errorSummary : Error → string.
Variable webUrl : string.




Lemma wave2_not_rejected (w : Tools.World) (agent : Settled AttemptResult)
      (order : list nat) (toolAvailability : gmap string bool)
      (pipelineTestingMode : bool) (t : Thrown) :
  runPreReconWave2 errorSummary w agent order webUrl toolAvailability
    pipelineTestingMode ≠ WaveRejected t.
Proof.
  unfold runPreReconWave2. destruct pipelineTestingMode; [done|]. cbv zeta.
  destruct (length (wave2_operations toolAvailability) =? 0)%nat; [done|].
  pose proof (wave2_no_rejection errorSummary w order webUrl agent
                toolAvailability) as Hno.
  destruct (promise_all _ order) as [vs|t'|]; [done| |done].
  by destruct (Hno t').
Qed.



End Phase.

Section PhaseTheorems.

Variable fs : Files.
Variable errorSummary : Error → string.
Variable webUrl : string.
Variables (order1 order2 : list nat).


(** X8.  The phase fails for two reasons only: the code-analysis agent
    threw (then the phase throws the same value), or the report could
    not be written (then it throws a non-retryable filesystem error).
    Neither a failing scan nor an unreadable code-analysis deliverable
    makes the phase fail. *)
Theorem phase_rejection_causes (w : Tools.World)
        (agent : Settled AttemptResult)
        (toolAvailability : gmap string bool)
        (pipelineTestingMode blackboxMode isBlackbox : bool) (t : Thrown) :
  executePreReconPhase fs errorSummary w agent order1 order2 webUrl
    toolAvailability pipelineTestingMode blackboxMode isBlackbox
  = PhaseRejected t →
  (isBlackbox = false ∧ agent = Rejected t)
  ∨ (∃ error,
       write_report fs = Some error
       ∧ t = ThrowError
               (PentestError
                  ("Failed to write pre-recon report: " +:+ err_message error)
                  "filesystem" false)).
Proof.
  unfold executePreReconPhase.
  destruct (runPreReconWave1 _ _ _ _ _ _ _ _) as [a|t1|] eqn:H1; [| |done].
  - destruct (runPreReconWave2 _ _ _ _ _ _ _) as [a2|t2|] eqn:H2; [| |done].
    + unfold stitchPreReconOutputs.
      destruct (write_report fs) as [error|]; [|done].
      intros [= <-]. right. by exists error.
    + by apply wave2_not_rejected in H2.
  - intros [= <-]. left. by apply wave1_rejection_origin in H1.
Qed.

(** X9.  In pipeline-testing mode the phase runs no tool and reads no
    availability: what it returns is the same in every tool world, with
    every availability object and target. *)
Theorem pipeline_testing_runs_no_tools (errorSummary' : Error → string)
        (w w' : Tools.World) (agent : Settled AttemptResult)
        (order2' : list nat) (webUrl' : string)
        (toolAvailability toolAvailability' : gmap string bool)
        (blackboxMode isBlackbox : bool) :
  executePreReconPhase fs errorSummary w agent order1 order2 webUrl
    toolAvailability true blackboxMode isBlackbox
  = executePreReconPhase fs errorSummary' w' agent order1 order2' webUrl'
      toolAvailability' true blackboxMode isBlackbox.
Proof.
  unfold executePreReconPhase, runPreReconWave1, runPreReconWave2.
  by destruct isBlackbox.
Qed.

(** X10.  Outside pipeline-testing mode the phase completes, with the
    duration of its timer, as soon as every scheduled operation has
    settled, the agent (where it is consulted) has returned and the
    report can be written, whatever the scans found. *)
Theorem phase_completes (w : Tools.World) (agent : Settled AttemptResult)
        (toolAvailability : gmap string bool)
        (blackboxMode isBlackbox : bool) :
  all_settled (wave1_operations toolAvailability isBlackbox) order1 →
  all_settled (wave2_operations toolAvailability) order2 →
  (isBlackbox = false → ∃ r, agent = Fulfilled r) →
  write_report fs = None →
  ∃ report,
    executePreReconPhase fs errorSummary w agent order1 order2 webUrl
      toolAvailability false blackboxMode isBlackbox
    = PhaseDone (phase_duration fs) report.
Proof.
  intros Hall1 Hall2 Hagent Hwrite. unfold executePreReconPhase.
  destruct (wave1_bindings errorSummary w agent order1 webUrl
              toolAvailability isBlackbox Hall1 Hagent)
    as (response & -> & _).
  unfold runPreReconWave2. cbv zeta.
  rewrite (wave2_results errorSummary w agent order2 webUrl toolAvailability
             Hall2).
  unfold stitchPreReconOutputs. rewrite Hwrite.
  destruct (length _ =? 0)%nat; by eexists.
Qed.

End PhaseTheorems.



Lemma phase_rejection_causes_witness :
  let phase :=
    executePreReconPhase locked_disk summary two_down
      (Fulfilled analysis_done) [3; 2; 1; 0] [1; 0] "https://example.com"
      some_tools false true true in
  let failure :=
    ThrowError
      (PentestError
         "Failed to write pre-recon report: EACCES: permission denied"
         "filesystem" false) in
  phase = PhaseRejected failure
  ∧ ((true = false ∧ Fulfilled analysis_done = Rejected failure)
     ∨ ∃ error,
         write_report locked_disk = Some error
         ∧ failure
           = ThrowError
               (PentestError
                  ("Failed to write pre-recon report: " +:+ err_message error)
                  "filesystem" false)).
Proof.
  intros phase failure. split; [reflexivity|].
  exact (phase_rejection_causes locked_disk summary "https://example.com"
           [3; 2; 1; 0] [1; 0] two_down (Fulfilled analysis_done) some_tools
           false true true failure eq_refl).
Defined.

Lemma phase_completes_witness :
  ∃ report,
    executePreReconPhase disk summary two_down (Fulfilled analysis_done)
      [4; 3; 2; 1; 0] [1; 0] "https://example.com" some_tools false false
      false
    = PhaseDone 5000 report.
Proof.
  apply (phase_completes disk summary "https://example.com" [4; 3; 2; 1; 0]
           [1; 0] two_down (Fulfilled analysis_done) some_tools false false).
  - intros i Hi.
    change (length (wave1_operations some_tools false)) with 5%nat in Hi.
    do 5 (destruct i as [|i]; [repeat constructor|]). lia.
  - intros i Hi.
    change (length (wave2_operations some_tools)) with 2%nat in Hi.
    do 2 (destruct i as [|i]; [repeat constructor|]). lia.
  - intros _. by eexists.
  - reflexivity.
Defined.

(** ** What the message loop reads *)

Section Reading.

Variable audit : bool.
Variable description : string.

(** Nothing after a result message is read, and the way the iterator
    would end after it does not matter. *)
Lemma consume_stops_at_result (ends : option Error) (pre post : list Message)
      (result : option string) (cost : option Q) :
  ∀ l,
    consume audit description ends (pre ++ MResult result cost :: post) l
    = consume audit description None (pre ++ [MResult result cost]) l.
Proof.
  induction pre as [|m pre IH]; intros l; simpl; [done|].
  destruct (on_message audit description l m); auto.
Qed.

Lemma includes_nonempty (sub s : string) :
  sub ≠ "" → includes sub (toLowerCase s) = true → truthy s = true.
Proof. intros Hsub. destruct s; [|done]. simpl. by destruct sub. Qed.

(** The variables of the loop after a run of messages that it passes
    over: only the turn count, the messages, the API-error flag and the
    log can have changed. *)
Lemma consume_passes (pre : list Message) :
  forallb passes pre = true →
  ∀ l, ∃ l',
    (∀ ends rest,
       consume audit description ends (pre ++ rest) l
       = consume audit description ends rest l')
    ∧ l_result l' = l_result l
    ∧ l_messages l' = (l_messages l ++ assistant_texts pre)%list
    ∧ l_totalCost l' = l_totalCost l
    ∧ l_partialCost l' = l_partialCost l
    ∧ l_costs l' = l_costs l.
Proof.
  induction pre as [|m pre IH]; intros Hpass l.
  - exists l. rewrite app_nil_r. by repeat split.
  - simpl in Hpass. apply andb_true_iff in Hpass as [Hm Hpre].
    assert (∃ l1, on_message audit description l m = Next l1
              ∧ l_result l1 = l_result l
              ∧ l_messages l1
                = (l_messages l ++ assistant_texts [m])%list
              ∧ l_totalCost l1 = l_totalCost l
              ∧ l_partialCost l1 = l_partialCost l
              ∧ l_costs l1 = l_costs l) as (l1 & Hstep & H1 & H2 & H3 & H4 & H5).
    { destruct m; simpl in *; try discriminate;
        try (eexists; split; [reflexivity|]; rewrite ?app_nil_r;
             unfold log_event; destruct audit; by repeat split).
      destruct (truthy (render c)); simpl in Hm;
        [apply negb_true_iff in Hm; rewrite Hm|];
        try destruct (includes "api error" _ || includes "terminated" _);
        (eexists; split; [reflexivity|]);
        unfold log_event; destruct audit; by repeat split. }
    destruct (IH Hpre l1) as (l' & Hrest & H1' & H2' & H3' & H4' & H5').
    exists l'. split; [|split; [|split; [|split; [|split]]]].
    + intros ends rest. simpl. by rewrite Hstep.
    + congruence.
    + rewrite H2', H2, <- app_assoc. f_equal.
      unfold assistant_texts. by destruct m.
    + congruence.
    + congruence.
    + congruence.
Qed.

End Reading.

Section OneExecution.

Variable isRetryableError : Error → bool.
Variable description : string.
Variable audit : bool.
Variable attemptNumber : nat.
Variable costs : CostResults.

(** X11.  The loop stops at the first result message: what the stream
    yields after it, and an error it would throw after it, change
    nothing in what [runClaudePrompt] returns, books and logs. *)
Theorem result_message_ends_loop (w w' : World) (pre post : list Message)
        (result : option string) (cost : option Q) (ends : option Error) :
  stream w attemptNumber
  = {| stream_messages := pre ++ MResult result cost :: post;
       stream_throws := ends |} →
  stream w' attemptNumber
  = {| stream_messages := pre ++ [MResult result cost];
       stream_throws := None |} →
  timer_duration w attemptNumber = timer_duration w' attemptNumber →
  runClaudePrompt isRetryableError w description audit attemptNumber costs
  = runClaudePrompt isRetryableError w' description audit attemptNumber costs.
Proof.
  intros Hw Hw' Htimer. unfold runClaudePrompt.
  rewrite Hw, Hw', Htimer. simpl.
  by rewrite consume_stops_at_result.
Qed.

(** X12.  An assistant turn that says "session limit reached", in any
    letter case, ends the execution at once as a failure: the object
    returned carries the error "Session limit reached" with the
    classification of that billing error, no cost, and [costResults] is
    left as it was; nothing after that turn is read. *)
Theorem session_limit_fails_execution (w : World) (pre post : list Message)
        (c : Content) (ends : option Error) :
  stream w attemptNumber
  = {| stream_messages := pre ++ MAssistant c :: post;
       stream_throws := ends |} →
  forallb passes pre = true →
  includes "session limit reached" (toLowerCase (render c)) = true →
  let run := runClaudePrompt isRetryableError w description audit
               attemptNumber costs in
  let limit := PentestError "Session limit reached" "billing" false in
  ar_success run.1.1 = false
  ∧ ar_error run.1.1 = Some "Session limit reached"
  ∧ ar_retryable run.1.1 = Some (isRetryableError limit)
  ∧ ar_result run.1.1 = None
  ∧ ar_cost run.1.1 = 0%Q
  ∧ run.1.2 = costs.
Proof.
  intros Hw Hpass Hlimit. unfold runClaudePrompt. rewrite Hw. simpl.
  set (init := {| l_result := None; l_messages := [];
                  l_apiErrorDetected := false; l_turnCount := 0;
                  l_totalCost := 0; l_partialCost := 0;
                  l_costs := costs; l_log := [] |}).
  destruct (consume_passes audit description pre Hpass init)
    as (l' & -> & _ & _ & _ & Hpartial & Hcosts).
  simpl.
  rewrite (includes_nonempty "session limit reached" (render c)
             ltac:(discriminate) Hlimit), Hlimit.
  unfold log_event. destruct audit; simpl; rewrite Hpartial, Hcosts; done.
Qed.

(** X13.  A stream that ends without a result message, and without
    throwing, still makes a successful execution: it costs nothing,
    leaves [costResults] as it was, and its result is the text of the
    assistant turns, joined by newlines. *)
Theorem stream_without_result_succeeds (w : World) (ms : list Message) :
  stream w attemptNumber
  = {| stream_messages := ms; stream_throws := None |} →
  forallb passes ms = true →
  let run := runClaudePrompt isRetryableError w description audit
               attemptNumber costs in
  ar_success run.1.1 = true
  ∧ ar_result run.1.1
    = (if (0 <? length (assistant_texts ms))%nat
       then Some (join nl (assistant_texts ms)) else None)
  ∧ ar_cost run.1.1 = 0%Q
  ∧ run.1.2 = costs.
Proof.
  intros Hw Hpass. unfold runClaudePrompt. rewrite Hw. simpl.
  set (init := {| l_result := None; l_messages := [];
                  l_apiErrorDetected := false; l_turnCount := 0;
                  l_totalCost := 0; l_partialCost := 0;
                  l_costs := costs; l_log := [] |}).
  destruct (consume_passes audit description ms Hpass init)
    as (l' & Hrest & Hresult & Hmessages & Htotal & _ & Hcosts).
  specialize (Hrest None []). rewrite app_nil_r in Hrest.
  rewrite Hrest. simpl. rewrite Hresult, Hmessages, Htotal, Hcosts. simpl.
  by destruct (assistant_texts ms).
Qed.

(** What [runClaudePrompt] makes of the single turn that the
    OpenAI-compatible adapter yields when its request failed. *)
Lemma adapter_error_run (w : World) (err : Error) :
  stream w attemptNumber = query_openai (CompletionFails err) →
  includes "session limit reached"
    (toLowerCase ("OpenAI adapter error: " +:+ err_message err)) = false →
  let run := runClaudePrompt isRetryableError w description audit
               attemptNumber costs in
  ar_success run.1.1 = true
  ∧ ar_result run.1.1
    = Some ("OpenAI adapter error: " +:+ err_message err)
  ∧ ar_error run.1.1 = None
  ∧ ar_cost run.1.1 = 0%Q
  ∧ run.1.2 = costs.
Proof.
  intros Hw Hlimit. unfold runClaudePrompt. rewrite Hw. simpl.
  simpl in Hlimit. rewrite Hlimit.
  destruct (includes "api error" _ || includes "terminated" _);
    unfold log_event; destruct audit; done.
Qed.

(** X14.  Through the OpenAI-compatible adapter a failed request is not a
    failed execution: the adapter turns the error into an assistant
    turn, and [runClaudePrompt] returns success, at no cost, with the
    text "OpenAI adapter error: ..." as its result. *)
Theorem adapter_error_is_success (w : World) (err : Error) :
  stream w attemptNumber = query_openai (CompletionFails err) →
  includes "session limit reached"
    (toLowerCase ("OpenAI adapter error: " +:+ err_message err)) = false →
  let run := runClaudePrompt isRetryableError w description audit
               attemptNumber costs in
  ar_success run.1.1 = true
  ∧ ar_result run.1.1
    = Some ("OpenAI adapter error: " +:+ err_message err)
  ∧ ar_error run.1.1 = None
  ∧ ar_cost run.1.1 = 0%Q
  ∧ run.1.2 = costs.
Proof.
  intros Hw Hlimit. unfold runClaudePrompt. rewrite Hw. simpl.
  simpl in Hlimit. rewrite Hlimit.
  destruct (includes "api error" _ || includes "terminated" _);
    unfold log_event; destruct audit; done.
Qed.

End OneExecution.

Lemma result_message_ends_loop_witness :
  runClaudePrompt by_flag talkative "Recon agent" true 1 no_costs
  = runClaudePrompt by_flag never_valid "Recon agent" true 1 no_costs.
Proof.
  exact (result_message_ends_loop by_flag "Recon agent" true 1 no_costs
           talkative never_valid
           [MSystemInit; MAssistant (CString "Working on it")]
           [MAssistant (CString "Session limit reached");
            MResult (Some "again") (Some (1 # 2))]
           (Some "done") (Some (1 # 4)) (Some (mkError "socket hang up"))
           eq_refl eq_refl eq_refl).
Defined.

Lemma session_limit_fails_execution_witness :
  let run := runClaudePrompt by_flag quota_exhausted "Recon agent" true 2
               no_costs in
  ar_success run.1.1 = false
  ∧ ar_error run.1.1 = Some "Session limit reached"
  ∧ ar_retryable run.1.1 = Some false
  ∧ ar_result run.1.1 = None
  ∧ ar_cost run.1.1 = 0%Q
  ∧ run.1.2 = no_costs.
Proof.
  exact (session_limit_fails_execution by_flag "Recon agent" true 2 no_costs
           quota_exhausted [MSystemInit]
           [MResult (Some "done") (Some (1 # 4))]
           (CString "Session limit reached. Resets at 5pm.") None
           eq_refl eq_refl eq_refl).
Defined.

Lemma stream_without_result_succeeds_witness :
  let run := runClaudePrompt by_flag unreachable "Recon agent" false 1
               no_costs in
  ar_success run.1.1 = true
  ∧ ar_result run.1.1 = Some "OpenAI adapter error: fetch failed"
  ∧ ar_cost run.1.1 = 0%Q
  ∧ run.1.2 = no_costs.
Proof.
  exact (stream_without_result_succeeds by_flag "Recon agent" false 1
           no_costs unreachable
           [MAssistant (CString "OpenAI adapter error: fetch failed")]
           eq_refl eq_refl).
Defined.

Lemma adapter_error_is_success_witness :
  let run := runClaudePrompt by_flag unreachable "Recon agent" true 3
               no_costs in
  ar_success run.1.1 = true
  ∧ ar_result run.1.1 = Some "OpenAI adapter error: fetch failed"
  ∧ ar_error run.1.1 = None
  ∧ ar_cost run.1.1 = 0%Q
  ∧ run.1.2 = no_costs.
Proof.
  exact (adapter_error_is_success by_flag "Recon agent" true 3 no_costs
           unreachable (mkError "fetch failed") eq_refl eq_refl).
Defined.

(** ** The shape of a run of the retry orchestrator *)

Section RunShape.

Variable isRetryableError : Error → bool.
Variable getRetryDelay : Error → nat → Z.
Variable cfg : Config.
Variable w : World.
Variables (prompt context description : string).
Variable agentName : option string.

Section Loop.

Variable audit : bool.

Local Abbreviation iteration :=
  (iteration isRetryableError getRetryDelay cfg w prompt context description
     agentName audit).
Local Abbreviation attempts :=
  (attempts isRetryableError getRetryDelay cfg w prompt context description
     agentName audit).
Local Abbreviation exhausted := (validation_exhausted description).

(** An iteration leaves in [lastError] what was there, or one of the
    errors that the orchestrator makes up. *)
Lemma iteration_lastError (attempt : nat) (st : State) :
  lastError st ∈ own_errors description →
  lastError match iteration attempt st with
            | Continue st' => st'
            | Done _ st' => st'
            end ∈ own_errors description.
Proof.
  intros Hown. unfold Executor.iteration, on_catch.
  destruct audit; rewrite ?costResults_emit;
    match goal with
    | |- context [runClaudePrompt _ _ _ ?a _ _] =>
        destruct (runClaudePrompt isRetryableError w description a attempt
                    (costResults st)) as [[r costs] logged]
    end;
    simpl fst; simpl snd;
    (destruct (ar_success r);
     [destruct (validateAgentOutput cfg w r agentName attempt);
      [|destruct (attempt <? maxRetries)%nat;
        [|destruct (isRetryableError exhausted)]]
     |]).
  all: destruct (isTextOnly cfg && bool_decide (agentName = Some "pre-recon")
                 && truthy (default "" (ar_result r))
                 && negb (deliverable_exists w attempt)).
  all: try destruct (ar_apiErrorDetected r).
  all: simpl.
  all: first [exact Hown|solve [unfold own_errors; repeat constructor]].
Qed.

(** What the loop throws is [lastError] as it found it, or one of the
    orchestrator's own errors. *)
Lemma attempts_thrown (remaining : nat) :
  ∀ (attempt : nat) (st : State) (t : Thrown),
    lastError st ∈ own_errors description →
    (attempts remaining attempt st).1 = Threw t →
    t ∈ own_errors description.
Proof.
  induction remaining as [|remaining IH]; intros attempt st t Hown; simpl.
  - by intros [= <-].
  - pose proof (iteration_lastError attempt st Hown) as Hlast.
    pose proof (iteration_spec isRetryableError getRetryDelay cfg w prompt
                  context description agentName audit attempt st) as Hit.
    simpl in Hit.
    destruct (iteration attempt st) as [st'|[r'|t'] st']; simpl.
    + by apply IH.
    + done.
    + intros [= <-]. destruct Hit as (_ & _ & _ & _ & -> & _).
      unfold own_errors. repeat constructor.
Qed.

(** The trace of the loop is a sequence of attempts, numbered from
    [attempt] on; only the last can have been committed, and is exactly
    when the loop returns. *)
Lemma attempts_blocks (remaining : nat) :
  ∀ (attempt : nat) (st : State),
    ∃ es : list Ending,
      kinds (trace (attempts remaining attempt st).2)
      = (kinds (trace st) ++ blocks attempt es)%list
      ∧ (length es ≤ remaining)%nat
      ∧ match (attempts remaining attempt st).1 with
        | Returned _ => ∃ es', es = (es' ++ [Committed])%list ∧ Committed ∉ es'
        | Threw _ =>
            (Committed ∉ es)
            ∧ (length es = remaining ∨ (maxRetries < attempt + length es)%nat)
        end.
Proof.
  induction remaining as [|remaining IH]; intros attempt st; simpl.
  - exists []. simpl. rewrite app_nil_r. split; [done|]. split; [done|].
    split; [apply not_elem_of_nil|by left].
  - pose proof (iteration_spec isRetryableError getRetryDelay cfg w prompt
                  context description agentName audit attempt st) as Hit.
    simpl in Hit.
    destruct (iteration attempt st) as [st'|[r'|t'] st'].
    + destruct (IH (S attempt) st') as (es & Hk & Hlen & Hend).
      assert (∃ e, e ≠ Committed
                ∧ kinds (trace st')
                  = (kinds (trace st) ++ block attempt e)%list)
        as (e & He & Hk').
      { destruct Hit as [_ [(_ & Hk' & _)|(_ & _ & Hk' & _)]].
        - by exists Unfinished.
        - by exists RolledBack. }
      exists (e :: es). split; [|split].
      * rewrite Hk, Hk', <- app_assoc. done.
      * simpl. lia.
      * destruct ((attempts remaining (S attempt) st').1).
        -- destruct Hend as (es' & -> & Hes'). exists (e :: es').
           split; [done|]. by apply not_elem_of_cons.
        -- destruct Hend as [Hes Hlen']. split.
           ++ by apply not_elem_of_cons.
           ++ simpl. destruct Hlen' as [->|Hlen']; [by left|right; lia].
    + destruct Hit as (_ & _ & _ & _ & Hk). exists [Committed].
      split; [simpl; by rewrite Hk|]. split; [simpl; lia|].
      exists []. split; [done|apply not_elem_of_nil].
    + destruct Hit as (_ & _ & _ & Hlt & _ & Hk). exists [RolledBack].
      split; [simpl; by rewrite Hk|]. split; [simpl; lia|]. split.
      * apply not_elem_of_cons. split; [done|apply not_elem_of_nil].
      * right. simpl. lia.
Qed.

(** An execution that succeeds and passes validation ends the loop. *)
Lemma valid_iteration_returns (attempt : nat) (st : State) :
  let r := (runClaudePrompt isRetryableError w description audit attempt
              (costResults st)).1.1 in
  ar_success r = true →
  validateAgentOutput cfg w r agentName attempt = true →
  ∃ st', iteration attempt st = Done (Returned r) st'
    ∧ kinds (trace st')
      = (kinds (trace st) ++ block attempt Committed)%list
    ∧ (cr_total (costResults st')
       == cr_total (costResults st) + ar_cost r)%Q.
Proof.
  intros r Hs Hv.
  pose proof (iteration_spec isRetryableError getRetryDelay cfg w prompt
                context description agentName audit attempt st) as Hit.
  simpl in Hit. fold r in Hit.
  destruct (iteration attempt st) as [st'|[r'|t] st'].
  - destruct Hit as [_ [(Hf & _)|(_ & Hv' & _)]]; congruence.
  - destruct Hit as ((Hc & _) & -> & _ & _ & Hk). by exists st'.
  - destruct Hit as (_ & _ & Hv' & _). congruence.
Qed.

End Loop.

Variable sessionMetadata : option SessionMetadata.

Local Abbreviation run :=
  (runClaudePromptWithRetry isRetryableError getRetryDelay cfg w prompt
     context description agentName sessionMetadata).

(** X15.  When no text-only result is to be saved as the deliverable (the
    provider is not the text-only one, or the agent is not pre-recon),
    every run of the orchestrator is a sequence of one to three attempts,
    numbered from 1, each starting with a checkpoint and an execution and
    ending with a rollback, with a commit, or with neither.  A commit is
    made at most once, as the very last action, and exactly when the run
    returns; a run that throws has made all three attempts. *)
Theorem run_is_a_sequence_of_attempts (costs : CostResults) :
  nothing_to_save cfg agentName →
  ∃ es : list Ending,
    kinds (trace (run costs).2) = blocks 1 es
    ∧ (1 ≤ length es ≤ maxRetries)%nat
    ∧ match (run costs).1 with
      | Returned _ => ∃ es', es = (es' ++ [Committed])%list ∧ Committed ∉ es'
      | Threw _ => length es = maxRetries ∧ Committed ∉ es
      end.
Proof.
  intros _. unfold runClaudePromptWithRetry.
  destruct (attempts_blocks (has_audit sessionMetadata agentName) maxRetries
              1 {| lastError := ThrowUndefined; retryContext := context;
                   costResults := costs; trace := [] |})
    as (es & Hk & Hlen & Hend).
  exists es. split; [exact Hk|].
  destruct (attempts _ _ _ _ _ _ _ _ _ _ _ _).1.
  - destruct Hend as (es' & -> & Hes'). split.
    + rewrite length_app in *. simpl in *. lia.
    + by exists es'.
  - destruct Hend as [Hes Hlen']. unfold maxRetries in *.
    split; [lia|]. split; [lia|done].
Qed.

(** X16.  When no text-only result is to be saved as the deliverable,
    then, whatever an execution failed with, the orchestrator does not
    throw it: what it throws is [undefined] or one of the three errors it
    makes up for a failed validation. *)
Theorem thrown_is_own_error (costs : CostResults) (t : Thrown) :
  nothing_to_save cfg agentName →
  (run costs).1 = Threw t → t ∈ own_errors description.
Proof.
  intros _. unfold runClaudePromptWithRetry. apply attempts_thrown.
  unfold own_errors. repeat constructor.
Qed.

(** X17.  When the first execution succeeds and its output passes
    validation, the run returns that execution's result after one
    checkpoint, one execution and one commit, and its cost is what was
    added to [costResults.total]. *)
Theorem valid_first_attempt_commits (costs : CostResults) :
  let r := (runClaudePrompt isRetryableError w description
              (has_audit sessionMetadata agentName) 1 costs).1.1 in
  ar_success r = true →
  validateAgentOutput cfg w r agentName 1 = true →
  (run costs).1 = Returned r
  ∧ kinds (trace (run costs).2) = [KCheckpoint 1; KExecute 1; KCommit]
  ∧ (cr_total (costResults (run costs).2) == cr_total costs + ar_cost r)%Q.
Proof.
  intros r Hs Hv. unfold runClaudePromptWithRetry.
  destruct (valid_iteration_returns (has_audit sessionMetadata agentName) 1
              {| lastError := ThrowUndefined; retryContext := context;
                 costResults := costs; trace := [] |} Hs Hv)
    as (st' & Hit & Hk & Hc).
  change maxRetries with 3. rewrite attempts_S, Hit. by simpl.
Qed.

(** X18.  With relaxed validation and the text-only provider, the recon
    agent is committed on the first attempt even when the request to the
    provider failed: unless the adapter's error text says "session limit
    reached", the run returns that text as the agent's result, after one
    checkpoint, one execution and one commit. *)
Theorem relaxed_validation_commits_adapter_error (costs : CostResults)
        (err : Error) :
  isTextOnly cfg = true →
  SHANNON_RELAX_VALIDATION cfg = true →
  agentName = Some "recon" →
  stream w 1 = query_openai (CompletionFails err) →
  includes "session limit reached"
    (toLowerCase ("OpenAI adapter error: " +:+ err_message err)) = false →
  ∃ r, (run costs).1 = Returned r
    ∧ ar_result r = Some ("OpenAI adapter error: " +:+ err_message err)
    ∧ kinds (trace (run costs).2) = [KCheckpoint 1; KExecute 1; KCommit].
Proof.
  intros Htext Hrelax Hagent Hw Hlimit.
  destruct (adapter_error_run isRetryableError description
              (has_audit sessionMetadata agentName) 1 costs w err Hw Hlimit)
    as (Hs & Hr & _).
  assert (validateAgentOutput cfg w
            (runClaudePrompt isRetryableError w description
               (has_audit sessionMetadata agentName) 1 costs).1.1
            agentName 1 = true) as Hv.
  { unfold validateAgentOutput. by rewrite Htext, Hrelax, Hagent. }
  unfold runClaudePromptWithRetry.
  destruct (valid_iteration_returns (has_audit sessionMetadata agentName) 1
              {| lastError := ThrowUndefined; retryContext := context;
                 costResults := costs; trace := [] |} Hs Hv)
    as (st' & Hit & Hk & _).
  change maxRetries with 3. rewrite attempts_S, Hit. simpl.
  eexists. split; [reflexivity|]. split; [exact Hr|exact Hk].
Qed.

End RunShape.

Lemma run_is_a_sequence_of_attempts_witness :
  let run := runClaudePromptWithRetry by_flag backoff plain second_time_lucky
               "Map the attack surface." "" "Recon agent" (Some "recon") meta
               no_costs in
  nothing_to_save plain (Some "recon")
  ∧ kinds (trace run.2)
    = [KCheckpoint 1; KExecute 1; KRollback;
       KCheckpoint 2; KExecute 2; KCommit]
  ∧ ∃ es : list Ending,
      kinds (trace run.2) = blocks 1 es
      ∧ (1 ≤ length es ≤ maxRetries)%nat
      ∧ ∃ es', es = (es' ++ [Committed])%list ∧ Committed ∉ es'.
Proof.
  intros run. split; [by left|]. split; [reflexivity|].
  exact (run_is_a_sequence_of_attempts by_flag backoff plain
           second_time_lucky "Map the attack surface." "" "Recon agent"
           (Some "recon") meta no_costs (or_introl eq_refl)).
Defined.

Lemma thrown_is_own_error_witness :
  let run := runClaudePromptWithRetry by_flag backoff plain auth_failure
               "Map the attack surface." "" "Recon agent" (Some "recon") meta
               no_costs in
  nothing_to_save plain (Some "recon")
  ∧ Forall (λ r, ar_error r = Some "authentication failed")
           (executed (trace run.2))
  ∧ run.1 = Threw ThrowUndefined
  ∧ ThrowUndefined ∈ own_errors "Recon agent".
Proof.
  intros run. split; [by left|].
  split; [vm_compute; repeat constructor|].
  split; [reflexivity|].
  exact (thrown_is_own_error by_flag backoff plain auth_failure
           "Map the attack surface." "" "Recon agent" (Some "recon") meta
           no_costs ThrowUndefined (or_introl eq_refl) eq_refl).
Defined.

Lemma valid_first_attempt_commits_witness :
  let run := runClaudePromptWithRetry by_flag backoff plain talkative
               "Map the attack surface." "" "Recon agent" (Some "recon") meta
               no_costs in
  (∃ r, run.1 = Returned r ∧ ar_result r = Some "done")
  ∧ kinds (trace run.2) = [KCheckpoint 1; KExecute 1; KCommit]
  ∧ (cr_total (costResults run.2) == 0 + (1 # 4))%Q.
Proof.
  intros run.
  destruct (valid_first_attempt_commits by_flag backoff plain talkative
              "Map the attack surface." "" "Recon agent" (Some "recon") meta
              no_costs eq_refl eq_refl) as (Hret & Hk & Hc).
  split; [eexists; split; [exact Hret|reflexivity]|].
  split; [exact Hk|exact Hc].
Defined.

Lemma relaxed_validation_commits_adapter_error_witness :
  let relaxed := {| isTextOnly := true; SHANNON_RELAX_VALIDATION := true |} in
  let run := runClaudePromptWithRetry by_flag backoff relaxed unreachable
               "Map the attack surface." "" "Recon agent" (Some "recon") meta
               no_costs in
  (∃ r, run.1 = Returned r
     ∧ ar_result r = Some "OpenAI adapter error: fetch failed"
     ∧ kinds (trace run.2) = [KCheckpoint 1; KExecute 1; KCommit])
  ∧ validateAgentOutput plain unreachable
      (runClaudePrompt by_flag unreachable "Recon agent" true 1 no_costs).1.1
      (Some "recon") 1 = false.
Proof.
  intros relaxed run. split; [|reflexivity].
  exact (relaxed_validation_commits_adapter_error by_flag backoff relaxed
           unreachable "Map the attack surface." "" "Recon agent"
           (Some "recon") meta no_costs (mkError "fetch failed") eq_refl
           eq_refl eq_refl eq_refl eq_refl).
Defined.

(** ** Recording an agent twice *)

Lemma uniq_fixed (l : list string) :
  ∀ seen, Session.uniq seen (Session.uniq seen l) = Session.uniq seen l.
Proof.
  induction l as [|x l IH]; intros seen; simpl; [done|].
  case_bool_decide as Hx; [apply IH|].
  simpl. rewrite bool_decide_eq_false_2 by done. by rewrite IH.
Qed.

(** Appending a name: it goes to the end, unless it is there already. *)
Lemma uniq_snoc (l : list string) (a : string) :
  ∀ seen,
    Session.uniq seen (l ++ [a])
    = (Session.uniq seen l
       ++ (if bool_decide (a ∈ l ∨ a ∈ seen) then [] else [a]))%list.
Proof.
  induction l as [|x l IH]; intros seen; simpl.
  - destruct (decide (a ∈ seen)) as [Hin|Hout].
    + rewrite bool_decide_eq_true_2 by done.
      by rewrite bool_decide_eq_true_2 by by right.
    + rewrite bool_decide_eq_false_2 by done.
      rewrite bool_decide_eq_false_2; [done|].
      by intros [?%not_elem_of_nil|?].
  - case_bool_decide as Hx.
    + rewrite IH.
      assert (bool_decide (a ∈ l ∨ a ∈ seen)
              = bool_decide (a ∈ x :: l ∨ a ∈ seen)) as ->; [|done].
      apply bool_decide_ext. rewrite elem_of_cons. split; [tauto|].
      intros [[->|?]|?]; tauto.
    + simpl. rewrite IH.
      assert (bool_decide (a ∈ l ∨ a ∈ x :: seen)
              = bool_decide (a ∈ x :: l ∨ a ∈ seen)) as ->; [|done].
      apply bool_decide_ext. rewrite !elem_of_cons. tauto.
Qed.

Lemma NoDup_uniq (l : list string) :
  ∀ seen, NoDup (Session.uniq seen l).
Proof.
  induction l as [|x l IH]; intros seen; simpl; [constructor|].
  case_bool_decide as Hx; [apply IH|].
  constructor; [|apply IH].
  rewrite elem_of_uniq. intros [_ Hout]. apply Hout. by left.
Qed.

Lemma filter_filter_same {A : Type} (p : A → bool) (l : list A) :
  List.filter p (List.filter p l) = List.filter p l.
Proof.
  induction l as [|x l IH]; simpl; [done|].
  destruct (p x) eqn:Hp; simpl; [|done]. by rewrite Hp, IH.
Qed.

(** Recording the same agent with the same hash a second time changes
    nothing. *)
Lemma update_twice (persisted : bool) (session : Session.Session)
      (agentName : string) (commitHash : option string) :
  Session.updateSessionProgress persisted
    (Session.updateSessionProgress persisted session agentName commitHash)
    agentName commitHash
  = Session.updateSessionProgress persisted session agentName commitHash.
Proof.
  unfold Session.updateSessionProgress. destruct persisted; [|done].
  unfold Session.assign, Session.make_updates. simpl. f_equal.
  - rewrite uniq_snoc, uniq_fixed.
    rewrite bool_decide_eq_true_2; [by rewrite app_nil_r|].
    left. apply elem_of_uniq. split; [|apply not_elem_of_nil].
    apply elem_of_app. right. by apply list_elem_of_singleton.
  - apply filter_filter_same.
  - destruct commitHash as [h|]; [destruct (truthy h)|]; simpl; try done.
    apply insert_insert_eq.
Qed.

(** X19.  [updateSessionProgress] is idempotent: recording an agent that
    was just recorded, with the same commit hash, leaves the session as
    the first update left it, whether or not the store accepts the
    updates. *)
Theorem update_is_idempotent (persisted : bool) (session : Session.Session)
        (agentName : string) (commitHash : option string) :
  let once :=
    Session.updateSessionProgress persisted session agentName commitHash in
  Session.updateSessionProgress persisted once agentName commitHash = once.
Proof.
  intros once. subst once.
  unfold Session.updateSessionProgress. destruct persisted; [|done].
  unfold Session.assign, Session.make_updates. simpl. f_equal.
  - rewrite uniq_snoc, uniq_fixed.
    rewrite bool_decide_eq_true_2; [by rewrite app_nil_r|].
    left. apply elem_of_uniq. split; [|apply not_elem_of_nil].
    apply elem_of_app. right. by apply list_elem_of_singleton.
  - apply filter_filter_same.
  - destruct commitHash as [h|]; [destruct (truthy h)|]; simpl; try done.
    apply insert_insert_eq.
Qed.

(** X20.  An accepted update leaves [completedAgents] without duplicates:
    the names that were there, in the order of their first occurrence,
    followed by the agent when it is new. *)
Theorem completed_agents_after_update (session : Session.Session)
        (agentName : string) (commitHash : option string) :
  let session' :=
    Session.updateSessionProgress true session agentName commitHash in
  Session.completedAgents session'
  = (Session.uniq [] (Session.completedAgents session)
     ++ (if bool_decide (agentName ∈ Session.completedAgents session)
         then [] else [agentName]))%list
  ∧ NoDup (Session.completedAgents session').
Proof.
  simpl. split; [|apply NoDup_uniq].
  rewrite uniq_snoc.
  assert (bool_decide (agentName ∈ Session.completedAgents session
                       ∨ agentName ∈ [])
          = bool_decide (agentName ∈ Session.completedAgents session))
    as ->; [|done].
  apply bool_decide_ext.
  split; [by intros [?|?%not_elem_of_nil]|by left].
Qed.

Section ReportStep.

Variable isRetryableError : Error → bool.
Variable getRetryDelay : Error → nat → Z.
Variable cfg : Config.
Variable w : World.
Variables (webUrl prompt description : string).
Variable costs : CostResults.

(** X21.  When the report agent returns, phase 5 leaves the session as
    one progress update of "report" with the commit hash leaves it, also
    when the hash is missing and the agent is recorded a second time by
    the [catch]; when the agent throws, the session is not touched. *)
Theorem report_step_records_once (persisted : bool)
        (reportCommitHash : option string) (session : Session.Session) :
  match (runClaudePromptWithRetry isRetryableError getRetryDelay cfg w
           prompt "" description (Some "report")
           (Session.metadata webUrl session) costs).1 with
  | Returned _ =>
      Session.phase5_report isRetryableError getRetryDelay cfg w webUrl
        prompt description costs persisted reportCommitHash session
      = Session.StepDone
          (Session.updateSessionProgress persisted session "report"
             reportCommitHash)
  | Threw t =>
      Session.phase5_report isRetryableError getRetryDelay cfg w webUrl
        prompt description costs persisted reportCommitHash session
      = Session.StepThrows t session
  end.
Proof.
  unfold Session.phase5_report.
  destruct (runClaudePromptWithRetry _ _ _ _ _ _ _ _ _ _) as [[r|t] st];
    simpl; [|done].
  destruct reportCommitHash as [h|]; [done|].
  by rewrite update_twice.
Qed.

End ReportStep.

(** ** The command line *)

Lemma includes_arg_cons (x a : string) (l : list string) :
  includes_arg x (a :: l) = String.eqb a x || includes_arg x l.
Proof.
  unfold includes_arg. destruct (String.eqb_spec a x) as [->|Hne]; simpl.
  - apply bool_decide_eq_true_2. by left.
  - apply bool_decide_ext. rewrite elem_of_cons. split; [|tauto].
    intros [->|?]; done.
Qed.

Lemma elem_of_filter_args (p : string → bool) (l : list string) (x : string) :
  x ∈ List.filter p l ↔ x ∈ l ∧ p x = true.
Proof. by rewrite list_elem_of_In, filter_In, <- list_elem_of_In. Qed.

(** The filter of a developer command keeps the mode flags. *)
Lemma includes_arg_remaining (x : string) (rest : list string) :
  x ∈ mode_flags →
  includes_arg x
    (List.filter (λ arg, negb (String.prefix "--" arg)
                         || includes_arg arg mode_flags) rest)
  = includes_arg x rest.
Proof.
  intros Hx. unfold includes_arg at 1 3. apply bool_decide_ext.
  rewrite elem_of_filter_args. split; [by intros [? _]|].
  intros Hin. split; [done|]. unfold includes_arg.
  rewrite (bool_decide_eq_true_2 _ Hx). apply orb_true_r.
Qed.

(** The argument loop, when no [--config] is given: it runs to its end,
    and each mode flag is set when it was set before or occurs among the
    arguments. *)
Lemma parse_mode_flags (args : list string) :
  ∀ f, "--config" ∉ args →
    ∃ f', parse args f = ParseDone f'
      ∧ configPath f' = configPath f
      ∧ pipelineTestingMode f'
        = pipelineTestingMode f || includes_arg "--pipeline-testing" args
      ∧ disableLoader f'
        = disableLoader f || includes_arg "--disable-loader" args
      ∧ blackboxMode f' = blackboxMode f || includes_arg "--blackbox" args
      ∧ skipMcpPhases f'
        = skipMcpPhases f || includes_arg "--skip-mcp-phases" args
      ∧ relaxValidation f'
        = relaxValidation f || includes_arg "--relax-validation" args.
Proof.
  induction args as [|arg rest IH]; intros f Hconfig.
  - exists f. simpl. rewrite !orb_false_r. by repeat split.
  - apply not_elem_of_cons in Hconfig as [Hne Hrest].
    rewrite !(includes_arg_cons _ arg rest). simpl.
    destruct (String.eqb_spec arg "--config") as [->|_]; [done|].
    repeat match goal with
           | |- context [if String.eqb arg ?s then parse rest ?g else _] =>
               destruct (String.eqb_spec arg s) as [->|?];
               [destruct (IH g Hrest)
                  as (f' & -> & ? & ? & ? & ? & ? & ?);
                exists f'; simpl in *;
                rewrite ?orb_true_r, ?orb_false_r in *; by repeat split|]
           end.
    simpl.
    destruct (includes_arg arg developerCommands).
    + eexists. split; [reflexivity|]. simpl.
      rewrite !includes_arg_remaining
        by (unfold mode_flags; repeat constructor).
      by repeat split.
    + destruct (negb (String.prefix "-" arg)).
      * match goal with
        | |- context [parse rest ?g] =>
            destruct (IH g Hrest) as (f' & -> & ? & ? & ? & ? & ? & ?)
        end.
        by exists f'.
      * destruct (IH f Hrest) as (f' & -> & ? & ? & ? & ? & ? & ?).
        by exists f'.
Qed.

Lemma prefix_dash (a : string) :
  String.prefix "-" a = false → String.prefix "--" a = false.
Proof.
  destruct a as [|c a]; [done|].
  change (String.prefix "-" (String c a))
    with (if Ascii.ascii_dec "-" c then String.prefix "" a else false).
  change (String.prefix "--" (String c a))
    with (if Ascii.ascii_dec "-" c then String.prefix "-" a else false).
  destruct (Ascii.ascii_dec "-" c); [|done]. by destruct a.
Qed.

(** Where the positional arguments come from. *)
Lemma parse_nonFlagArgs (n : nat) :
  ∀ args, (length args ≤ n)%nat →
    ∀ f f', parse args f = ParseDone f' →
      ∀ a, a ∈ nonFlagArgs f' →
        a ∈ nonFlagArgs f
        ∨ (a ∈ args ∧ String.prefix "--" a = false
           ∧ (developerCommand f' = None → String.prefix "-" a = false)).
Proof.
  induction n as [|n IH]; intros args Hlen f f'.
  { destruct args; [|simpl in Hlen; lia]. intros [= <-] a Ha. by left. }
  destruct args as [|arg rest]; [intros [= <-] a Ha; by left|].
  simpl in Hlen.
  assert (∀ skipped later g,
            (length later ≤ n)%nat →
            arg :: rest = (skipped ++ later)%list →
            nonFlagArgs g = nonFlagArgs f →
            parse later g = ParseDone f' →
            ∀ a, a ∈ nonFlagArgs f' →
              a ∈ nonFlagArgs f
              ∨ (a ∈ arg :: rest ∧ String.prefix "--" a = false
                 ∧ (developerCommand f' = None →
                    String.prefix "-" a = false))) as Hsame.
  { intros skipped later g Hlater Hargs Hg Hparse a Ha.
    destruct (IH later Hlater g f' Hparse a Ha) as [Hin|(Hin & Hpre)].
    - left. by rewrite <- Hg.
    - right. split; [|done]. rewrite Hargs. apply elem_of_app. by right. }
  simpl.
  destruct (String.eqb arg "--config").
  { destruct rest as [|path rest']; [done|].
    apply (Hsame [arg; path] rest'); [simpl in Hlen; lia|done|done]. }
  repeat match goal with
         | |- context [if String.eqb arg ?s then parse rest ?g else _] =>
             destruct (String.eqb arg s);
             [apply (Hsame [arg] rest g); [lia|done|done]|]
         end.
  destruct (includes_arg arg developerCommands).
  - intros [= <-] a. simpl. rewrite elem_of_app, !elem_of_filter_args.
    intros [Ha|((Ha & Hkeep) & Hmode)]; [by left|]. right.
    split; [by right|]. split; [|done].
    apply negb_true_iff in Hmode. rewrite Hmode, orb_false_r in Hkeep.
    by apply negb_true_iff in Hkeep.
  - destruct (String.prefix "-" arg) eqn:Hdash; simpl.
    + apply (Hsame [arg] rest f); [lia|done|done].
    + intros Hparse a Ha.
      destruct (IH rest ltac:(lia) _ f' Hparse a Ha) as [Hin|(Hin & Hpre)].
      * simpl in Hin. apply elem_of_app in Hin as [Hin|Hin]; [by left|].
        apply list_elem_of_singleton in Hin as ->. right.
        split; [by left|]. split; [by apply prefix_dash|done].
      * right. split; [by right|done].
Qed.

(** The same, from the start of the command line. *)
Lemma parse_nonFlagArgs_initial (args : list string) (f : Flags) :
  parse args initial = ParseDone f →
  ∀ a, a ∈ nonFlagArgs f →
    developerCommand f = None → String.prefix "-" a = false.
Proof.
  intros Hparse a Ha.
  destruct (parse_nonFlagArgs (length args) args ltac:(lia) initial f Hparse
              a Ha) as [Hin|(_ & _ & H)]; [|done].
  by apply not_elem_of_nil in Hin.
Qed.

(** X22.  Every positional argument is an argument of the command line
    that does not start with ["--"], and, when no developer command is
    given, does not start with ["-"]. *)
Theorem positional_arguments (args : list string) (f : Flags) :
  parse args initial = ParseDone f →
  ∀ a, a ∈ nonFlagArgs f →
    a ∈ args ∧ String.prefix "--" a = false
    ∧ (developerCommand f = None → String.prefix "-" a = false).
Proof.
  intros Hparse a Ha.
  destruct (parse_nonFlagArgs (length args) args ltac:(lia) initial f Hparse
              a Ha) as [Hin|H]; [|done].
  by apply not_elem_of_nil in Hin.
Qed.

(** X23.  Without [--config], the argument loop runs to its end and a
    mode flag is set exactly when it occurs somewhere on the command
    line, before or after a developer command; no configuration path is
    set. *)
Theorem mode_flags_by_occurrence (args : list string) :
  "--config" ∉ args →
  ∃ f, parse args initial = ParseDone f
    ∧ configPath f = None
    ∧ pipelineTestingMode f = includes_arg "--pipeline-testing" args
    ∧ disableLoader f = includes_arg "--disable-loader" args
    ∧ blackboxMode f = includes_arg "--blackbox" args
    ∧ skipMcpPhases f = includes_arg "--skip-mcp-phases" args
    ∧ relaxValidation f = includes_arg "--relax-validation" args.
Proof.
  intros Hconfig.
  destruct (parse_mode_flags args initial Hconfig)
    as (f & Hparse & H0 & H1 & H2 & H3 & H4 & H5).
  exists f. by repeat split.
Qed.

(** X24.  The entry point goes on to validate its inputs only without a
    help word and without a developer command, with a target URL that
    does not start with a dash and, outside blackbox mode, with a
    repository path as well. *)
Theorem validated_command_line (argv : list string) (f : Flags) :
  dispatch argv = ValidatesInputs f →
  parse (script_args argv) initial = ParseDone f
  ∧ developerCommand f = None
  ∧ (∀ word, word ∈ ["--help"; "-h"; "help"] → word ∉ script_args argv)
  ∧ (∃ webUrl, nonFlagArgs f !! 0%nat = Some webUrl
       ∧ String.prefix "-" webUrl = false)
  ∧ (blackboxMode f = false →
     ∃ repoPath, nonFlagArgs f !! 1%nat = Some repoPath).
Proof.
  unfold dispatch. cbv zeta.
  destruct (parse (script_args argv) initial) as [code|g] eqn:Hparse;
    [done|].
  destruct (includes_arg "--help" _ || includes_arg "-h" _
            || includes_arg "help" _) eqn:Hhelp; [done|].
  destruct (developerCommand g) eqn:Hdev; [done|].
  destruct (length (nonFlagArgs g) =? 0)%nat eqn:Hzero; [done|].
  destruct (negb (blackboxMode g) && (length (nonFlagArgs g) <? 2)%nat)
    eqn:Htwo; [done|].
  intros [= <-]. split; [done|]. split; [done|].
  apply Nat.eqb_neq in Hzero.
  apply orb_false_iff in Hhelp as [[H1 H2]%orb_false_iff H3].
  unfold includes_arg in H1, H2, H3.
  apply bool_decide_eq_false in H1, H2, H3.
  split; [|split].
  - intros word Hword.
    repeat (apply elem_of_cons in Hword as [->|Hword]; [done|]).
    by apply not_elem_of_nil in Hword.
  - destruct (nonFlagArgs g) as [|webUrl more] eqn:Hargs; [done|].
    exists webUrl. split; [done|].
    apply (parse_nonFlagArgs_initial _ _ Hparse); [|done].
    rewrite Hargs. by left.
  - intros Hbb. rewrite Hbb in Htwo. simpl in Htwo.
    apply Nat.ltb_ge in Htwo.
    destruct (nonFlagArgs g) as [|webUrl [|repoPath more]];
      simpl in Htwo; try lia.
    by exists repoPath.
Qed.

Lemma positional_arguments_witness :
  let args := ["https://example.com"; "--verbose"; "-v"; "./repo";
               "--blackbox"] in
  ∃ f, parse args initial = ParseDone f
    ∧ nonFlagArgs f = ["https://example.com"; "./repo"]
    ∧ ∀ a, a ∈ nonFlagArgs f →
        a ∈ args ∧ String.prefix "--" a = false
        ∧ (developerCommand f = None → String.prefix "-" a = false).
Proof.
  intros args. eexists. split; [reflexivity|]. split; [reflexivity|].
  exact (positional_arguments args _ eq_refl).
Defined.

Lemma mode_flags_by_occurrence_witness :
  let args := ["--status"; "--blackbox"; "--session"; "s-1";
               "--pipeline-testing"] in
  ∃ f, parse args initial = ParseDone f
    ∧ configPath f = None
    ∧ pipelineTestingMode f = includes_arg "--pipeline-testing" args
    ∧ disableLoader f = includes_arg "--disable-loader" args
    ∧ blackboxMode f = includes_arg "--blackbox" args
    ∧ skipMcpPhases f = includes_arg "--skip-mcp-phases" args
    ∧ relaxValidation f = includes_arg "--relax-validation" args.
Proof.
  intros args. apply (mode_flags_by_occurrence args).
  intros Hin. repeat (apply elem_of_cons in Hin as [Hin|Hin]; [done|]).
  by apply not_elem_of_nil in Hin.
Defined.

Lemma validated_command_line_witness :
  let argv := ["./shannon.mjs"; "https://example.com"; "--config";
               "--blackbox"; "./repo"] in
  ∃ f, dispatch argv = ValidatesInputs f
    ∧ configPath f = Some "--blackbox"
    ∧ blackboxMode f = false
    ∧ (∃ webUrl, nonFlagArgs f !! 0%nat = Some webUrl
         ∧ String.prefix "-" webUrl = false)
    ∧ ∃ repoPath, nonFlagArgs f !! 1%nat = Some repoPath.
Proof.
  intros argv. eexists. split; [reflexivity|].
  split; [reflexivity|]. split; [reflexivity|].
  destruct (validated_command_line argv _ eq_refl)
    as (_ & _ & _ & Hurl & Hrepo).
  split; [exact Hurl|exact (Hrepo eq_refl)].
Defined.
